(** * MutualInfo: the mutual-information monitor of monitor/mutual_info/mutual_info.py

    A shallow embedding of the activation interceptor ([register],
    [start_listening], [finish_listening], [wrap_forward],
    [save_activations]), of the asynchronous result computation, of the
    reporting step ([plot]) and of the histogram quantizers
    ([adjust_bins], [quantize], [digitize]).

    Python objects are modelled as follows.
    - A [dict] is an association list in insertion order, as Python
      dictionaries are; [defaultdict] reads insert the default.
    - An [nn.Module] is an object identity ([Layer]); its mutable
      [forward] attribute lives in the [forward] store of the [World].
    - Floating-point numbers are modelled by rationals. *)

From Stdlib Require Import NArith ZArith QArith Qround List Sorted String Bool Arith Lia.
From Stdlib Require Import DecimalString.
Import ListNotations.

Local Open Scope string_scope.
Local Open Scope nat_scope.

(** ** Python dictionaries (insertion ordered) *)

Section Dict.
Context {V : Type}.

Definition dict := list (string * V).

Fixpoint dict_get (k : string) (d : dict) : option V :=
  match d with
  | [] => None
  | (k', v) :: d' => if String.eqb k k' then Some v else dict_get k d'
  end.

(** [d[k] = v]: an existing key keeps its position. *)
Fixpoint dict_set (k : string) (v : V) (d : dict) : dict :=
  match d with
  | [] => [(k, v)]
  | (k', v') :: d' =>
      if String.eqb k k' then (k, v) :: d' else (k', v') :: dict_set k v d'
  end.

(** [del d[k]] (and the removal half of [d.pop(k)]). *)
Fixpoint dict_del (k : string) (d : dict) : dict :=
  match d with
  | [] => []
  | (k', v') :: d' =>
      if String.eqb k k' then d' else (k', v') :: dict_del k d'
  end.

Definition dict_keys (d : dict) : list string := map fst d.
Definition dict_values (d : dict) : list V := map snd d.

(** [k in d] *)
Definition dict_mem (k : string) (d : dict) : bool :=
  match dict_get k d with Some _ => true | None => false end.

(** [d[k]] on a [defaultdict]: a missing key is inserted with the default. *)
Definition defaultdict_get (default : V) (k : string) (d : dict) : V * dict :=
  match dict_get k d with
  | Some v => (v, d)
  | None => (default, dict_set k default d)
  end.
End Dict.

Arguments dict V : clear implicits.

(** ** Values *)

(** A torch tensor, indexed by sample along its first dimension: a float
    tensor is a list of (flattened) rows, a long tensor a list of labels. *)
Inductive Tensor :=
| FloatTensor (rows : list (list Q))
| LongTensor (labels : list Z).

(** Python's [len(tensor)]. *)
Definition len (t : Tensor) : nat :=
  match t with
  | FloatTensor rows => List.length rows
  | LongTensor labels => List.length labels
  end.

(** A numpy integer array, one- or two-dimensional. *)
Inductive ndarray :=
| Arr1 (v : list Z)
| Arr2 (rows : list (list Z)).

(** What [self.activations] and [self.quantized] hold: a Python list of
    captured tensors, or an array produced by [process]. *)
Inductive Value :=
| Batches (l : list Tensor)
| Array (a : ndarray).

(** [estimate_size]: an [int], or [np.inf]. *)
Inductive Size :=
| Finite (n : Z)
| Inf.

(** [n < size] and [n >= size] for an integer [n]. *)
Definition lt_size (n : Z) (s : Size) : bool :=
  match s with Finite m => (n <? m)%Z | Inf => true end.
Definition ge_size (n : Z) (s : Size) : bool := negb (lt_size n s).

Inductive Exception :=
| AssertionError (msg : string)
| ZeroDivisionError
| ValueError
| TypeError
| AttributeError.

(** A call either returns or raises; the mutations made so far persist
    in both cases. *)
Inductive Outcome (A S : Type) :=
| Return (a : A) (s : S)
| Raise (e : Exception) (s : S).
Arguments Return {A S} a s.
Arguments Raise {A S} e s.

Definition state_of {A S} (o : Outcome A S) : S :=
  match o with Return _ s => s | Raise _ s => s end.

Definition bind {A B S} (o : Outcome A S) (k : A -> S -> Outcome B S) : Outcome B S :=
  match o with
  | Return a s => k a s
  | Raise e s => Raise e s
  end.

(** ** Layers and forward computations *)

(** The identity of an [nn.Module] object. *)
Definition Layer := nat.

(** A callable stored in (or read from) [layer.forward]: the module's own
    method, or a closure returned by [wrap_forward].  Closures compare by
    identity in Python, hence the allocation number [closure]. *)
Inductive Forward :=
| Original (fn : nat)
| forward_and_save (closure : nat) (layer_name : string) (forward_orig : Forward).

(** Python's [==] on these callables. *)
Fixpoint Forward_eqb (f g : Forward) : bool :=
  match f, g with
  | Original a, Original b => Nat.eqb a b
  | forward_and_save c n f', forward_and_save d m g' =>
      Nat.eqb c d && String.eqb n m && Forward_eqb f' g'
  | _, _ => false
  end.

Record DataLoader := {
  batches : list (Tensor * Tensor);
  batch_size : nat
}.

(** ** The monitor object *)

Record MutualInfo := {
  estimate_size : Size;
  compression_range : Q * Q;
  debug : bool;
  n_bins : dict N;
  max_trials_adjust : nat;
  layers : dict (Layer * Forward);
  activations : dict Value;
  quantized : dict Value;
  information : dict (Q * Q);
  is_active : bool;
  eval_loader : option DataLoader
}.

(** [MutualInfo.__init__] *)
Definition init (estimate_size : Size) (compression_range : Q * Q) (debug : bool) : MutualInfo :=
  {| estimate_size := estimate_size;
     compression_range := compression_range;
     debug := debug;
     n_bins := [];
     max_trials_adjust := 10;
     layers := [];
     activations := [];
     quantized := [];
     information := [];
     is_active := false;
     eval_loader := None |}.

Definition n_bins_default : N := 20.

Definition set_n_bins (v : dict N) (m : MutualInfo) : MutualInfo :=
  {| estimate_size := estimate_size m; compression_range := compression_range m;
     debug := debug m; n_bins := v; max_trials_adjust := max_trials_adjust m;
     layers := layers m; activations := activations m; quantized := quantized m;
     information := information m; is_active := is_active m;
     eval_loader := eval_loader m |}.

Definition set_layers (v : dict (Layer * Forward)) (m : MutualInfo) : MutualInfo :=
  {| estimate_size := estimate_size m; compression_range := compression_range m;
     debug := debug m; n_bins := n_bins m; max_trials_adjust := max_trials_adjust m;
     layers := v; activations := activations m; quantized := quantized m;
     information := information m; is_active := is_active m;
     eval_loader := eval_loader m |}.

Definition set_activations (v : dict Value) (m : MutualInfo) : MutualInfo :=
  {| estimate_size := estimate_size m; compression_range := compression_range m;
     debug := debug m; n_bins := n_bins m; max_trials_adjust := max_trials_adjust m;
     layers := layers m; activations := v; quantized := quantized m;
     information := information m; is_active := is_active m;
     eval_loader := eval_loader m |}.

Definition set_quantized (v : dict Value) (m : MutualInfo) : MutualInfo :=
  {| estimate_size := estimate_size m; compression_range := compression_range m;
     debug := debug m; n_bins := n_bins m; max_trials_adjust := max_trials_adjust m;
     layers := layers m; activations := activations m; quantized := v;
     information := information m; is_active := is_active m;
     eval_loader := eval_loader m |}.

Definition set_information (v : dict (Q * Q)) (m : MutualInfo) : MutualInfo :=
  {| estimate_size := estimate_size m; compression_range := compression_range m;
     debug := debug m; n_bins := n_bins m; max_trials_adjust := max_trials_adjust m;
     layers := layers m; activations := activations m; quantized := quantized m;
     information := v; is_active := is_active m;
     eval_loader := eval_loader m |}.

Definition set_is_active (v : bool) (m : MutualInfo) : MutualInfo :=
  {| estimate_size := estimate_size m; compression_range := compression_range m;
     debug := debug m; n_bins := n_bins m; max_trials_adjust := max_trials_adjust m;
     layers := layers m; activations := activations m; quantized := quantized m;
     information := information m; is_active := v;
     eval_loader := eval_loader m |}.

Definition set_eval_loader (v : option DataLoader) (m : MutualInfo) : MutualInfo :=
  {| estimate_size := estimate_size m; compression_range := compression_range m;
     debug := debug m; n_bins := n_bins m; max_trials_adjust := max_trials_adjust m;
     layers := layers m; activations := activations m; quantized := quantized m;
     information := information m; is_active := is_active m;
     eval_loader := v |}.

(** The monitor together with the objects it shares with the rest of the
    program: the [forward] attribute of every module, the closures
    allocated so far, and the jobs handed to process pools. *)
Record World := {
  self : MutualInfo;
  forward : Layer -> Forward;
  closures : nat;
  pool_log : list (list (string * Value))
}.

Definition set_self (m : MutualInfo) (w : World) : World :=
  {| self := m; forward := forward w; closures := closures w; pool_log := pool_log w |}.

(** [layer.forward = f] *)
Definition set_forward (layer : Layer) (f : Forward) (w : World) : World :=
  {| self := self w;
     forward := fun l => if Nat.eqb l layer then f else forward w l;
     closures := closures w;
     pool_log := pool_log w |}.

Definition set_closures (n : nat) (w : World) : World :=
  {| self := self w; forward := forward w; closures := n; pool_log := pool_log w |}.

Definition log_pool (jobs : list (string * Value)) (w : World) : World :=
  {| self := self w; forward := forward w; closures := closures w;
     pool_log := pool_log w ++ [jobs] |}.

(** ** The activation interceptor *)

(** Modelled from the spec: the [Schedule] decorator of
    monitor/batch_timer.py, which is not among the sources.  The scheduling
    gate decides from the ambient epoch and batch counters whether the
    decorated method runs; when it denies, the call does nothing to the
    monitor.  The decision is taken as the argument [due]. *)
Definition Schedule (due : bool) (func : World -> World) (w : World) : World :=
  if due then func w else w.

(** [sum(map(len, batches))] *)
Definition total_samples (l : list Tensor) : nat := list_sum (map len l).

Section Interceptor.

(** The model collaborator: the uninstrumented forward computation
    number [fn], a function of its input tensor. *)
Variable native : nat -> Tensor -> Tensor.

(** The abstract method [process] (it may mutate [self]) and the
    estimator [compute_mutual_info], which may raise. *)
Variable process : MutualInfo -> string -> Value -> Outcome ndarray MutualInfo.
Variable compute_mutual_info : Value -> ndarray -> Exception + Q.

Definition register (layer : Layer) (name : string) (w : World) : World :=
  set_self (set_layers (dict_set name (layer, forward w layer) (layers (self w))) (self w)) w.

(** [wrap_forward] allocates a new closure over its two arguments. *)
Definition wrap_forward (layer_name : string) (forward_orig : Forward) (w : World)
  : Forward * World :=
  (forward_and_save (closures w) layer_name forward_orig, set_closures (S (closures w)) w).

(** The loop of [start_listening] over [self.layers.items()]. *)
Fixpoint wrap_layers (items : list (string * (Layer * Forward))) (w : World) : World :=
  match items with
  | [] => w
  | (name, (layer, forward_orig)) :: rest =>
      if Forward_eqb (forward w layer) forward_orig
      then let (f, w1) := wrap_forward name forward_orig w in
           wrap_layers rest (set_forward layer f w1)
      else wrap_layers rest w
  end.

Definition start_listening (due : bool) : World -> World :=
  Schedule due (fun w =>
    let w1 := wrap_layers (layers (self w)) w in
    set_self (set_is_active true (self w1)) w1).

(** [save_activations].  Should the name hold a processed array instead of
    a list of tensors, [len] of a numpy integer is a [TypeError] and
    [append] is not an attribute of an array. *)
Definition save_activations (layer_name : string) (tensor : Tensor) (w : World)
  : Outcome unit World :=
  let (v, acts) := defaultdict_get (Batches []) layer_name (activations (self w)) in
  let w1 := set_self (set_activations acts (self w)) w in
  let size := estimate_size (self w) in
  match v with
  | Batches l =>
      if lt_size (Z.of_nat (total_samples l)) size
      then Return tt (set_self (set_activations
                        (dict_set layer_name (Batches (l ++ [tensor])) acts) (self w1)) w1)
      else Return tt w1
  | Array (Arr1 []) =>
      if lt_size 0 size then Raise AttributeError w1 else Return tt w1
  | Array (Arr1 (_ :: _)) => Raise TypeError w1
  | Array (Arr2 rows) =>
      if lt_size (Z.of_nat (list_sum (map (@List.length Z) rows))) size
      then Raise AttributeError w1 else Return tt w1
  end.

(** Calling a forward computation on [input]. *)
Fixpoint call (f : Forward) (input : Tensor) (w : World) : Outcome Tensor World :=
  match f with
  | Original fn => Return (native fn input) w
  | forward_and_save _ layer_name forward_orig =>
      if is_active (self w) then
        match call forward_orig input w with
        | Return output w1 =>
            match save_activations layer_name output w1 with
            | Return _ w2 => Return output w2
            | Raise e w2 => Raise e w2
            end
        | Raise e w1 => Raise e w1
        end
      else Raise (AssertionError "Did you forget to start the job?") w
  end.

Definition hidden_layer_names (m : MutualInfo) : list string :=
  filter (fun name => negb (String.eqb name "input" || String.eqb name "target"))
         (dict_keys (activations m)).

Definition _compute_async (snapshot : MutualInfo) (args : string * Value)
  : Exception + (string * ndarray * Q * Q * N) :=
  let (name, acts) := args in
  match process snapshot name acts with
  | Raise e _ => inl e
  | Return quantized m1 =>
      let (x, a1) := defaultdict_get (Batches []) "input" (activations m1) in
      match compute_mutual_info x quantized with
      | inl e => inl e
      | inr info_x =>
          let (y, _) := defaultdict_get (Batches []) "target" a1 in
          match compute_mutual_info y quantized with
          | inl e => inl e
          | inr info_y =>
              inr (name, quantized, info_x, info_y,
                   fst (defaultdict_get 0%N name (n_bins m1)))
          end
      end
  end.

(** [[(hname, self.activations.pop(hname)) for hname in names]], for
    names that are keys of the dictionary. *)
Fixpoint pop_all (names : list string) (acts : dict Value)
  : list (string * Value) * dict Value :=
  match names with
  | [] => ([], acts)
  | hname :: rest =>
      match dict_get hname acts with
      | Some v =>
          let (args, acts') := pop_all rest (dict_del hname acts) in
          ((hname, v) :: args, acts')
      | None => pop_all rest acts
      end
  end.

(** The results of [executor.map] arrive in the order of the jobs; a job
    that raised re-raises when its result is reached.  Every worker runs
    on a copy [snapshot] of the monitor. *)
Fixpoint merge_results (snapshot : MutualInfo) (args : list (string * Value)) (w : World)
  : Outcome unit World :=
  match args with
  | [] => Return tt w
  | job :: rest =>
      match _compute_async snapshot job with
      | inl e => Raise e w
      | inr (hname, symbols, info_x, info_y, nb) =>
          let m := self w in
          let m1 := set_information (dict_set hname (info_x, info_y) (information m)) m in
          let m2 := set_quantized (dict_set hname (Array symbols) (quantized m1)) m1 in
          let m3 := set_n_bins (dict_set hname nb (n_bins m2)) m2 in
          merge_results snapshot rest (set_self m3 w)
      end
  end.

Definition save_information_async (w : World) : Outcome unit World :=
  let m := self w in
  let (input, acts) := defaultdict_get (Batches []) "input" (activations m) in
  let m1 := set_quantized [("input", input)] (set_activations acts m) in
  let (args, acts') := pop_all (hidden_layer_names m1) (activations m1) in
  let m2 := set_activations acts' m1 in
  merge_results m2 args (log_pool args (set_self m2 w)).

(** The loop of [finish_listening] over [self.layers.items()]. *)
Fixpoint restore_layers (items : list (string * (Layer * Forward))) (w : World) : World :=
  match items with
  | [] => w
  | (name, (layer, forward_orig)) :: rest =>
      restore_layers rest (set_forward layer forward_orig w)
  end.

Definition finish_listening (w : World) : Outcome unit World :=
  if negb (is_active (self w)) then Return tt w
  else
    let w1 := restore_layers (layers (self w)) w in
    let w2 := set_self (set_is_active false (self w1)) w1 in
    save_information_async w2.

(** A forward pass of the model: its sub-modules are invoked in turn,
    each through its current [forward] attribute. *)
Fixpoint model_call (model : list Layer) (x : Tensor) (w : World) : Outcome Tensor World :=
  match model with
  | [] => Return x w
  | layer :: rest =>
      match call (forward w layer) x w with
      | Return y w1 => model_call rest y w1
      | Raise e w1 => Raise e w1
      end
  end.

(** The loop of [update] over [enumerate(iter(self.eval_loader))]. *)
Fixpoint run_batches (model : list Layer) (bs : list (Tensor * Tensor)) (batch_id : nat)
         (loader : DataLoader) (w : World) : Outcome unit World :=
  match bs with
  | [] => Return tt w
  | (images, labels) :: rest =>
      match model_call model images w with
      | Raise e w1 => Raise e w1
      | Return _ w1 =>
          if ge_size (Z.of_nat (batch_id * batch_size loader)) (estimate_size (self w1))
          then Return tt w1
          else run_batches model rest (S batch_id) loader w1
      end
  end.

Definition update (due : bool) (model : list Layer) (w : World) : Outcome unit World :=
  match eval_loader (self w) with
  | None => Return tt w
  | Some loader =>
      let w1 := start_listening due w in
      if negb (is_active (self w1)) then Return tt w1
      else
        match run_batches model (batches loader) 0 loader w1 with
        | Raise e w2 => Raise e w2
        | Return _ w2 => finish_listening w2
        end
  end.


(** The loop of [prepare]: batches are taken until the cap is reached. *)
Fixpoint take_batches (bs : list (Tensor * Tensor)) (taken : nat) (loader : DataLoader)
         (size : Size) : list Tensor * list Tensor :=
  match bs with
  | [] => ([], [])
  | (images, labels) :: rest =>
      if ge_size (Z.of_nat (S taken * batch_size loader)) size
      then ([images], [labels])
      else let (inputs, targets) := take_batches rest (S taken) loader size in
           (images :: inputs, labels :: targets)
  end.

Definition prepare (loader : DataLoader) (w : World) : Outcome unit World :=
  let m := set_eval_loader (Some loader) (self w) in
  let (inputs, targets) := take_batches (batches loader) 0 loader (estimate_size m) in
  match process m "input" (Batches inputs) with
  | Raise e m1 => Raise e (set_self m1 w)
  | Return a m1 =>
      let m2 := set_activations (dict_set "input" (Array a) (activations m1)) m1 in
      match process m2 "target" (Batches targets) with
      | Raise e m3 => Raise e (set_self m3 w)
      | Return b m3 =>
          Return tt (set_self (set_activations
                                 (dict_set "target" (Array b) (activations m3)) m3) w)
      end
  end.

End Interceptor.

(** ** Reporting *)

(** [np.array(ys)]: a vector, or the one-row matrix [[ys]]. *)
Inductive Series :=
| Flat (l : list Q)
| Nested (l : list (list Q)).

(** [np.array(l)], after [l = [l]] when [nest] holds. *)
Definition np_array (nest : bool) (l : list Q) : Series :=
  if nest then Nested [l] else Flat l.

Inductive VizCall :=
| bar (Y : list Z) (X : list Z) (win : string) (title : string)
| boxplot (X : list (list Q)) (win : string) (title : string) (legend : list string)
| line (Y X : Series) (win : string) (title : string) (legend : list string)
       (update : option string).

(** Modelled from the spec: the plotting collaborator [VisdomMighty] of
    monitor/viz.py, which is not among the sources.  It accepts named
    plots keyed by a window title and can tell whether a window exists;
    a plot creates its window.  The calls it received are kept in order. *)
Record VisdomMighty := {
  windows : list string;
  calls : list VizCall
}.

Definition win_exists (title : string) (viz : VisdomMighty) : bool :=
  existsb (String.eqb title) (windows viz).

Definition win_of (c : VizCall) : string :=
  match c with
  | bar _ _ win _ => win
  | boxplot _ win _ _ => win
  | line _ _ win _ _ _ => win
  end.

Definition viz_call (c : VizCall) (viz : VisdomMighty) : VisdomMighty :=
  {| windows := if win_exists (win_of c) viz then windows viz else windows viz ++ [win_of c];
     calls := calls viz ++ [c] |}.

(** Python's [str] of a bin count. *)
Definition str (n : N) : string := NilEmpty.string_of_uint (N.to_uint n).

(** Insertion of [x] into a list sorted in decreasing order. *)
Fixpoint insert_desc (x : Z) (l : list Z) : list Z :=
  match l with
  | [] => [x]
  | y :: l' => if (y <=? x)%Z then x :: l else y :: insert_desc x l'
  end.

(** [counts.sort(); counts[::-1]] *)
Definition sort_desc (l : list Z) : list Z := fold_right insert_desc [] l.

(** [X.transpose()] of a matrix with [ncols] columns. *)
Definition transpose (ncols : nat) (X : list (list Q)) : list (list Q) :=
  map (fun j => map (fun row => nth j row 0%Q) X) (seq 0 ncols).

Section Reporting.

(** numpy, an external library, on the heterogeneous values of
    [self.quantized]: the counts of [np.unique(v, return_counts=True)],
    and [np.vstack(vs).transpose()], which fails ([None], a
    [ValueError]) on values that do not stack. *)
Variable np_unique_counts : Value -> list Z.
Variable np_vstack_transpose : list Value -> option (list (list Q)).

(** The loop of [plot_quantized_hist] over [self.quantized.items()]. *)
Fixpoint plot_quantized_hist_loop (items : list (string * Value)) (viz : VisdomMighty)
  : VisdomMighty :=
  match items with
  | [] => viz
  | (name, layer_quantized) :: rest =>
      let counts := sort_desc (np_unique_counts layer_quantized) in
      plot_quantized_hist_loop rest
        (viz_call (bar (map Z.of_nat (seq 0 (List.length counts))) counts
                       (name ++ " MI hist") (name ++ " MI quantized histogram")) viz)
  end.

Definition plot_quantized_hist (viz : VisdomMighty) (w : World) : VisdomMighty :=
  plot_quantized_hist_loop (quantized (self w)) viz.

(** The legend loop: each [self.n_bins[name]] is a [defaultdict] read. *)
Fixpoint legend_loop (names : list string) (nb : dict N) : list string * dict N :=
  match names with
  | [] => ([], nb)
  | name :: rest =>
      let (n, nb1) := defaultdict_get 0%N name nb in
      let (legend, nb2) := legend_loop rest nb1 in
      ((name ++ " (" ++ str n ++ " bins)") :: legend, nb2)
  end.

(** [len(set(ns))] *)
Definition distinct_bins (ns : list N) : nat := List.length (nodup N.eq_dec ns).

(** The loop filling [counts], a matrix with [n] columns:
    [counts[layer_id, :len(layer_counts)] = layer_counts] raises a
    [ValueError] when the counts neither fit nor broadcast. *)
Fixpoint fill_counts (n : nat) (items : list (string * Value)) : option (list (list Q)) :=
  match items with
  | [] => Some []
  | (name, layer_quantized) :: rest =>
      let layer_counts := np_unique_counts layer_quantized in
      let k := List.length layer_counts in
      if (k <=? n) || (k =? 1) then
        match fill_counts n rest with
        | Some rows =>
            Some (firstn n (map inject_Z layer_counts ++ repeat 0%Q n) :: rows)
        | None => None
        end
      else None
  end.

(** The body of [plot_quantized_dispersion]. *)
Definition plot_quantized_dispersion_body (viz : VisdomMighty) (w : World)
  : Outcome unit (World * VisdomMighty) :=
  let m := self w in
  if existsb (N.eqb 0) (dict_values (n_bins m)) then Return tt (w, viz)
  else
    let names := dict_keys (quantized m) in
    let (legend, nb1) := legend_loop names (n_bins m) in
    let debug_hist (viz1 : VisdomMighty) (w1 : World) :=
      Return tt (w1, if debug m then plot_quantized_hist viz1 w1 else viz1) in
    if distinct_bins (map (fun name => fst (defaultdict_get 0%N name nb1)) names) =? 1 then
      let (n, nb2) := defaultdict_get 0%N "input" nb1 in
      let w2 := set_self (set_n_bins nb2 m) w in
      match fill_counts (N.to_nat n) (quantized m) with
      | None => Raise ValueError (w2, viz)
      | Some counts =>
          debug_hist (viz_call (boxplot (transpose (N.to_nat n) counts) "MI hist"
                                  "MI quantized dispersion (smaller is better)" legend)
                               viz) w2
      end
    else
      let w1 := set_self (set_n_bins nb1 m) w in
      match np_vstack_transpose (dict_values (quantized m)) with
      | None => Raise ValueError (w1, viz)
      | Some X =>
          debug_hist (viz_call (boxplot X "MI hist"
                                  "MI inverse quantized dispersion (smaller is worse)" legend)
                               viz) w1
      end.

(** [@Schedule(epoch_update=1)]: see [Schedule]; the decision is [due]. *)
Definition plot_quantized_dispersion (due : bool) (viz : VisdomMighty) (w : World)
  : Outcome unit (World * VisdomMighty) :=
  if due then plot_quantized_dispersion_body viz w else Return tt (w, viz).

(** The loop of [plot] over [list(self.information.items())]. *)
Fixpoint drain (items : list (string * (Q * Q))) (info : dict (Q * Q))
  : list Q * list Q * list string * dict (Q * Q) :=
  match items with
  | [] => ([], [], [], info)
  | (layer_name, (info_x, info_y)) :: rest =>
      let '(ys, xs, legend, info') := drain rest (dict_del layer_name info) in
      (info_y :: ys, info_x :: xs, layer_name :: legend, info')
  end.

Definition plot (dispersion_due : bool) (viz : VisdomMighty) (w : World)
  : Outcome unit (World * VisdomMighty) :=
  if is_active (self w) then Raise (AssertionError "Wait, not finished yet.") (w, viz)
  else if List.length (information (self w)) =? 0 then Return tt (w, viz)
  else
    match plot_quantized_dispersion dispersion_due viz w with
    | Raise e s => Raise e s
    | Return _ (w1, viz1) =>
        let m := self w1 in
        let '(ys, xs, legend, info') := drain (information m) (information m) in
        let w2 := set_self (set_information info' m) w1 in
        let title := "Mutual information plane" in
        let nest := 1 <? List.length ys in
        let update := if win_exists title viz1 then Some "append" else None in
        Return tt (w2, viz_call (line (np_array nest ys) (np_array nest xs)
                                      title title legend update) viz1)
    end.

End Reporting.

(** ** Quantizers *)

(** The rows of a two-dimensional float tensor. *)
Definition Activations := list (list Q).

(** *** numpy's [unique] along the first axis *)

(** Lexicographic comparison of integer rows. *)
Fixpoint row_compare (r s : list Z) : comparison :=
  match r, s with
  | [], [] => Eq
  | [], _ :: _ => Lt
  | _ :: _, [] => Gt
  | x :: r', y :: s' =>
      match Z.compare x y with
      | Eq => row_compare r' s'
      | c => c
      end
  end.

Fixpoint insert_unique (r : list Z) (u : list (list Z)) : list (list Z) :=
  match u with
  | [] => [r]
  | s :: u' =>
      match row_compare r s with
      | Lt => r :: u
      | Eq => u
      | Gt => s :: insert_unique r u'
      end
  end.

(** The sorted distinct rows. *)
Definition unique_rows (rows : list (list Z)) : list (list Z) :=
  fold_right insert_unique [] rows.

(** The position of [r] among the rows [u]. *)
Fixpoint index_of (r : list Z) (u : list (list Z)) : nat :=
  match u with
  | [] => 0
  | s :: u' =>
      match row_compare r s with
      | Eq => 0
      | _ => S (index_of r u')
      end
  end.

(** The items of an array along its first axis. *)
Definition rows_of (a : ndarray) : list (list Z) :=
  match a with
  | Arr1 v => map (fun x => [x]) v
  | Arr2 rows => rows
  end.

(** [np.unique(a, axis=0)] *)
Definition np_unique (a : ndarray) : list (list Z) := unique_rows (rows_of a).

(** [np.unique(a, return_inverse=True, axis=0)] *)
Definition np_unique_inverse (a : ndarray) : list (list Z) * list Z :=
  let unique := np_unique a in
  (unique, map (fun r => Z.of_nat (index_of r unique)) (rows_of a)).

(** The number of distinct symbols of a sequence, [len(set(symbols))]. *)
Definition distinct (symbols : list Z) : nat := List.length (nodup Z.eq_dec symbols).

(** *** Arithmetic on columns *)

Definition Qsum (l : list Q) : Q := fold_right Qplus 0%Q l.

(** Column [j] of a matrix. *)
Definition column (j : nat) (rows : Activations) : list Q :=
  map (fun row => nth j row 0%Q) rows.

Definition Qlen (l : list Q) : Q := inject_Z (Z.of_nat (List.length l)).

(** [mean(dim=0)] of one column. *)
Definition mean (col : list Q) : Q := (Qsum col / Qlen col)%Q.

(** The square root, exact on the squares of rationals and rounded down
    to the grid of the denominator elsewhere (torch rounds to the nearest
    float). *)
Definition Qsqrt (q : Q) : Q :=
  Qmake (Z.sqrt (Qnum q * Zpos (Qden q))) (Qden q).

(** [std(dim=0)] of one column: the unbiased estimate. *)
Definition std (col : list Q) : Q :=
  let m := mean col in
  Qsqrt (Qsum (map (fun x => (x - m) * (x - m)) col) / (Qlen col - 1))%Q.

(** [x.clamp_(min=lo, max=hi)]: the larger of [x] and [lo], then the
    smaller of that and [hi]. *)
Definition clamp (lo hi x : Q) : Q :=
  let y := if Qle_bool x lo then lo else x in
  if Qle_bool hi y then hi else y.

(** The cast of a float to a long: truncation towards zero. *)
Definition Qtrunc (x : Q) : Z := Z.quot (Qnum x) (Zpos (Qden x)).

(** *** Digitization *)

(** A bin count is a natural number; the entries of the digitized arrays
    are integers. *)

(** One entry of [MutualInfoBinFixed.digitize], in a column of the given
    [mean] and [sig]. *)
Definition digitize_fixed_entry (n_bins : N) (mean sig x : Q) : Z :=
  let dim0_min := (mean - 2 * sig)%Q in
  let dim0_max := (mean + 2 * sig)%Q in
  let n := inject_Z (Z.of_N n_bins) in
  Qtrunc (clamp 0 n (n * (x - dim0_min) / (dim0_max - dim0_min))%Q).

(** Applies [f j x] to the entry [x] of column [j], for [j] from [j0]. *)
Fixpoint map_columns {B} (f : nat -> Q -> B) (j0 : nat) (row : list Q) : list B :=
  match row with
  | [] => []
  | x :: row' => f j0 x :: map_columns f (S j0) row'
  end.

(** [MutualInfoBinFixed.digitize].  Where a column has no spread (a
    constant column, a single sample) torch divides by zero and the cast
    of the resulting nan is unspecified; here the division gives 0. *)
Definition MutualInfoBinFixed_digitize (layer_name : string) (activations : Activations)
           (n_bins : N) : Exception + ndarray :=
  inr (Arr2 (map (map_columns (fun j x =>
                    let col := column j activations in
                    digitize_fixed_entry n_bins (mean col) (std col) x) 0)
                 activations)).

(** Insertion sort of a column. *)
Fixpoint Qinsert (x : Q) (l : list Q) : list Q :=
  match l with
  | [] => [x]
  | y :: l' => if Qle_bool x y then x :: l else y :: Qinsert x l'
  end.
Definition Qsort (l : list Q) : list Q := fold_right Qinsert [] l.

(** [np.linspace(start=0, stop=100, num=n, endpoint=True)] *)
Definition linspace_0_100 (n : nat) : list Q :=
  match n with
  | 1 => [0%Q]
  | _ => map (fun i => (inject_Z (Z.of_nat i) * 100 / inject_Z (Z.of_nat (n - 1)))%Q) (seq 0 n)
  end.

(** [np.percentile(col, q)] with linear interpolation. *)
Definition percentile (col : list Q) (q : Q) : Q :=
  let sorted := Qsort col in
  let pos := (q / 100 * (Qlen col - 1))%Q in
  let lo := Z.to_nat (Qfloor pos) in
  let a := nth lo sorted 0%Q in
  let b := nth (S lo) sorted a in
  (a + (pos - inject_Z (Z.of_nat lo)) * (b - a))%Q.

(** [np.digitize(x, bins, right=True)] for increasing [bins]: the number
    of breakpoints strictly below [x]. *)
Definition np_digitize_right (bins : list Q) (x : Q) : Z :=
  Z.of_nat (List.length (filter (fun b => negb (Qle_bool x b)) bins)).

(** [MutualInfoQuantile.digitize] *)
Definition MutualInfoQuantile_digitize (layer_name : string) (activations : Activations)
           (n_bins : N) : Exception + ndarray :=
  inr (Arr2 (map (map_columns (fun j x =>
                    let col := column j activations in
                    let bins := map (percentile col) (linspace_0_100 (N.to_nat n_bins)) in
                    np_digitize_right bins x) 0)
                 activations)).

(** *** The class [MutualInfoBin] and its subclasses *)

(** The subclasses that the properties below are about; the class of
    [self] decides which [digitize] and [quantize] a call reaches. *)
Inductive MutualInfoBin :=
| MutualInfoBinFixed
| MutualInfoQuantile
| MutualInfoKMeans.

Section Quantizer.

(** scikit-learn, an external library:
    [MiniBatchKMeans(n_clusters).fit_predict(activations)], one cluster
    index per sample, or the exception with which it rejects its
    arguments. *)
Variable fit_predict : N -> Activations -> Exception + list Z.

Definition MutualInfoKMeans_digitize (layer_name : string) (activations : Activations)
           (n_bins : N) : Exception + ndarray :=
  match fit_predict n_bins activations with
  | inr labels => inr (Arr1 labels)
  | inl e => inl e
  end.

(** [self.digitize], resolved by the class of [self]. *)
Definition digitize (cls : MutualInfoBin)
  : string -> Activations -> N -> Exception + ndarray :=
  match cls with
  | MutualInfoBinFixed => MutualInfoBinFixed_digitize
  | MutualInfoQuantile => MutualInfoQuantile_digitize
  | MutualInfoKMeans => MutualInfoKMeans_digitize
  end.

(** [MutualInfoBin.quantize], for the digitizer of [cls]. *)
Definition MutualInfoBin_quantize (cls : MutualInfoBin) (layer_name : string)
           (activations : Activations) (n_bins : N) : Exception + ndarray :=
  match digitize cls layer_name activations n_bins with
  | inl e => inl e
  | inr digitized =>
      let (unique, inverse) := np_unique_inverse digitized in
      inr (Arr1 inverse)
  end.

(** [MutualInfoKMeans.quantize] *)
Definition MutualInfoKMeans_quantize (layer_name : string) (activations : Activations)
           (n_bins : N) : Exception + ndarray :=
  digitize MutualInfoKMeans layer_name activations n_bins.

(** [self.quantize], resolved by the class of [self]. *)
Definition quantize (cls : MutualInfoBin)
  : string -> Activations -> N -> Exception + ndarray :=
  match cls with
  | MutualInfoKMeans => MutualInfoKMeans_quantize
  | _ => MutualInfoBin_quantize cls
  end.

(** [x > y] on floats *)
Definition Qgt_bool (x y : Q) : bool := negb (Qle_bool x y).

(** The loop of [adjust_bins] with [trials] trials left; it returns the
    number of digitizations made along with the bin count. *)
Fixpoint adjust_bins_loop (self : MutualInfo) (cls : MutualInfoBin) (layer_name : string)
         (activations : Activations) (trials : nat) (n_bins : N) : Exception + (nat * N) :=
  match trials with
  | O => inr (O, n_bins)
  | S trials' =>
      let next (n : N) :=
        match adjust_bins_loop self cls layer_name activations trials' n with
        | inr (k, n') => inr (S k, n')
        | inl e => inl e
        end in
      let (compression_min, compression_max) := compression_range self in
      match digitize cls layer_name activations n_bins with
      | inl e => inl e
      | inr digitized =>
          let unique := np_unique digitized in
          let samples := Z.of_nat (List.length activations) in
          if (samples =? 0)%Z then inl ZeroDivisionError
          else
            let compression :=
              (inject_Z (samples - Z.of_nat (List.length unique)) / inject_Z samples)%Q in
            if Qgt_bool compression compression_max then next (n_bins * 2)%N
            else if Qgt_bool compression_min compression then
              let n_bins' := N.max 2 (n_bins / 2) in
              if (n_bins' =? 2)%N then inr (1, n_bins') else next n_bins'
            else inr (1, n_bins)
      end
  end.

Definition adjust_bins_trials (self : MutualInfo) (cls : MutualInfoBin) (layer_name : string)
           (activations : Activations) : Exception + (nat * N) :=
  adjust_bins_loop self cls layer_name activations (max_trials_adjust self) n_bins_default.

Definition adjust_bins (self : MutualInfo) (cls : MutualInfoBin) (layer_name : string)
           (activations : Activations) : Exception + N :=
  match adjust_bins_trials self cls layer_name activations with
  | inr (_, n_bins) => inr n_bins
  | inl e => inl e
  end.

End Quantizer.

(** * Observations and specifications *)

Local Open Scope list_scope.

(** The layers named by a list of registrations. *)
Definition layers_of (items : list (string * (Layer * Forward))) : list Layer :=
  map (fun item => fst (snd item)) items.

(** The invariant of a monitor outside a session whose layers were all
    registered with their present forward computation. *)
Definition consistent (w : World) : Prop :=
  forall name layer fo, In (name, (layer, fo)) (layers (self w)) -> forward w layer = fo.

(** What a call hands back to its caller. *)
Definition output {A S} (o : Outcome A S) : Exception + A :=
  match o with
  | Return a _ => inr a
  | Raise e _ => inl e
  end.

(** The activation buffer of a layer: the tensors captured so far (a
    missing key reads as the empty list of the [defaultdict]). *)
Definition buffer (name : string) (w : World) : list Tensor :=
  match dict_get name (activations (self w)) with
  | Some (Batches l) => l
  | _ => []
  end.

(** [self.activations[name]] is a list of tensors, not a processed array. *)
Definition is_buffer (name : string) (w : World) : bool :=
  match dict_get name (activations (self w)) with
  | Some (Array _) => false
  | _ => true
  end.

(** The buffer's total sample count is below the configured cap. *)
Definition below_cap (name : string) (w : World) : bool :=
  lt_size (Z.of_nat (total_samples (buffer name w))) (estimate_size (self w)).

(** The layer names of the wrappers stacked in a forward computation. *)
Fixpoint wrapper_names (f : Forward) : list string :=
  match f with
  | Original _ => []
  | forward_and_save _ layer_name forward_orig => layer_name :: wrapper_names forward_orig
  end.

(** The output of the uninstrumented computation under the wrappers. *)
Fixpoint original_output (native : nat -> Tensor -> Tensor) (f : Forward) (x : Tensor)
  : Tensor :=
  match f with
  | Original fn => native fn x
  | forward_and_save _ _ forward_orig => original_output native forward_orig x
  end.

(** The strict lexicographic order of rows. *)
Definition row_lt (r s : list Z) : Prop := row_compare r s = Lt.

(** The search as the specification words it, over the compression [c n]
    observed with [n] bins: with [t] trials left and [n] bins it ends after
    [k] digitizations with [r] bins. *)
Inductive bin_search (c : N -> Q) (cmin cmax : Q) : nat -> N -> nat -> N -> Prop :=
| search_budget_spent n :
    bin_search c cmin cmax 0 n 0 n
| search_double t n k r :
    (cmax < c n)%Q ->
    bin_search c cmin cmax t (n * 2) k r ->
    bin_search c cmin cmax (S t) n (S k) r
| search_floor t n :
    ~ (cmax < c n)%Q -> (c n < cmin)%Q ->
    N.max 2 (n / 2) = 2%N ->
    bin_search c cmin cmax (S t) n 1 2
| search_halve t n k r :
    ~ (cmax < c n)%Q -> (c n < cmin)%Q ->
    N.max 2 (n / 2) <> 2%N ->
    bin_search c cmin cmax t (N.max 2 (n / 2)) k r ->
    bin_search c cmin cmax (S t) n (S k) r
| search_accept t n :
    ~ (cmax < c n)%Q -> ~ (c n < cmin)%Q ->
    bin_search c cmin cmax (S t) n 1 n.

(** (num_samples - num_distinct_digitized_rows) / num_samples, where the
    digitizer returns. *)
Definition compression (fit_predict : N -> Activations -> Exception + list Z)
           (cls : MutualInfoBin) (layer_name : string)
           (activations : Activations) (n_bins : N) : Q :=
  match digitize fit_predict cls layer_name activations n_bins with
  | inr digitized =>
      let samples := Z.of_nat (List.length activations) in
      (inject_Z (samples - Z.of_nat (List.length (np_unique digitized)))
       / inject_Z samples)%Q
  | inl _ => 0%Q
  end.

(** The digitizer returns at every bin count the search can try: from 3
    bins to 20 * 2^9. *)
Definition accepts (fit_predict : N -> Activations -> Exception + list Z)
           (cls : MutualInfoBin) (layer_name : string) (activations : Activations)
  : Prop :=
  forall n_bins, (3 <= n_bins <= 10240)%N ->
    exists digitized, digitize fit_predict cls layer_name activations n_bins = inr digitized.

(** [w'] differs from [w] in [self.activations] at most. *)
Definition only_activations (w w' : World) : Prop :=
  w' = set_self (set_activations (activations (self w')) (self w)) w.

(** [g] is [f] under zero or more wrappers. *)
Inductive stacked (f : Forward) : Forward -> Prop :=
| stacked_refl : stacked f f
| stacked_wrap closure layer_name g :
    stacked f g -> stacked f (forward_and_save closure layer_name g).

(** Every module computes with a method of its own: no wrapper is
    attached anywhere. *)
Definition uninstrumented (w : World) : Prop :=
  forall l, exists fn, forward w l = Original fn.

(** What the model computes from [x] when its modules forward as [fwd]
    says, instrumentation aside. *)
Fixpoint model_output (native : nat -> Tensor -> Tensor) (fwd : Layer -> Forward)
         (model : list Layer) (x : Tensor) : Tensor :=
  match model with
  | [] => x
  | l :: rest => model_output native fwd rest (original_output native (fwd l) x)
  end.

(** The number of wrappers in a forward computation. *)
Fixpoint depth (f : Forward) : nat :=
  match f with
  | Original _ => 0
  | forward_and_save _ _ forward_orig => S (depth forward_orig)
  end.

(** [name not in ('input', 'target')] *)
Definition hidden (name : string) : bool :=
  negb (String.eqb name "input" || String.eqb name "target").

(** The buffers of the hidden layers, in the order of the dictionary. *)
Definition hidden_buffers (acts : dict Value) : list (string * Value) :=
  filter (fun item => hidden (fst item)) acts.

(** The entries of the references, in the order of the dictionary. *)
Definition reference_entries (acts : dict Value) : list (string * Value) :=
  filter (fun item => negb (hidden (fst item))) acts.


(** * Sample data *)

(** The default arguments of [MutualInfo.__init__]. *)
Definition default_estimate_size : Size := Inf.
Definition default_compression_range : Q * Q := ((1 # 2)%Q, (999 # 1000)%Q).

(** The monitor with the default arguments. *)
Definition default_monitor : MutualInfo :=
  init default_estimate_size default_compression_range false.

(** A model whose module number [l] computes with its own method [l]. *)
Definition own_forward (l : Layer) : Forward := Original l.

(** A freshly constructed monitor beside an unmodified model. *)
Definition fresh : World :=
  {| self := default_monitor;
     forward := own_forward;
     closures := 0;
     pool_log := [] |}.

(** Sample collaborators: every layer doubles its batch, [process] maps
    anything to the empty array, the estimator answers zero. *)
Definition doubling (fn : nat) (t : Tensor) : Tensor :=
  match t with
  | FloatTensor rows => FloatTensor (map (map (fun x => 2 * x)%Q) rows)
  | LongTensor labels => LongTensor (map (fun x => 2 * x)%Z labels)
  end.
Definition empty_process (m : MutualInfo) (name : string) (v : Value)
  : Outcome ndarray MutualInfo := Return (Arr1 []) m.
Definition zero_information (x : Value) (y : ndarray) : Exception + Q := inr 0%Q.

(** One linear layer registered on a fresh monitor. *)
Definition one_layer : World := register 0 "fc" fresh.

(** A monitor outside a session with a stale wrapper left on its layer. *)
Definition stale : World :=
  set_forward 0 (forward_and_save 0 "fc" (Original 0)) one_layer.


(** A batch of two samples. *)
Definition batch : Tensor := FloatTensor [[1; 2]; [3; 4]]%Q.

(** A plotting collaborator that has not been called yet. *)
Definition blank : VisdomMighty := {| windows := []; calls := [] |}.

(** Two results waiting to be reported. *)
Definition measured : World :=
  set_self (set_information [("fc1", ((3 # 2)%Q, (1 # 2)%Q)); ("fc2", (1%Q, 1%Q))]
                            (self one_layer)) one_layer.

(** numpy stand-ins for the examples: no counts, nothing stacks. *)
Definition no_counts (v : Value) : list Z := [].
Definition no_stack (vs : list Value) : option (list (list Q)) := None.

(** A clustering that leaves cluster 1 empty: the collapse to a dense
    alphabet would rename cluster 2, [quantize] does not. *)
Definition sparse_clusters (n_bins : N) (activations : Activations) : Exception + list Z :=
  inr (map (fun row => match row with
                       | [] => 0%Z
                       | x :: _ => if Qle_bool x 0 then 0%Z else 2%Z
                       end) activations).


(** Nine samples of one feature: two outliers around a constant bulk.
    Mean 0, standard deviation 1/2: the range is [-1, 1]. *)
Definition outliers : Activations := [[1]; [-1]; [0]; [0]; [0]; [0]; [0]; [0]; [0]]%Q.

(** An evaluation loader of one batch with its two labels. *)
Definition one_batch : DataLoader :=
  {| batches := [(batch, LongTensor [0; 1]%Z)]; batch_size := 2 |}.


(** A prepared monitor whose layer was registered under the name of the
    input reference, which holds an array of two symbols. *)
Definition clash : World :=
  register 0 "input"
    (set_self (set_activations [("input", Array (Arr1 [0; 1]%Z))]
                 (set_eval_loader (Some one_batch) (self fresh))) fresh).


(** The one-layer monitor with the input reference in its cache and no
    bin count recorded. *)
Definition cached : World :=
  set_self (set_quantized [("input", Array (Arr1 [0; 1]%Z))] (self one_layer)) one_layer.

(** * Properties *)

(** ** Dictionaries *)

Section DictFacts.
Context {V : Type}.
Implicit Types (d : dict V) (k : string) (v : V).

Lemma dict_get_set_eq d k v : dict_get k (dict_set k v d) = Some v.
Proof.
  induction d as [|[k' v'] d IH]; simpl.
  - now rewrite String.eqb_refl.
  - destruct (String.eqb k k') eqn:E; simpl.
    + now rewrite String.eqb_refl.
    + now rewrite E.
Qed.

Lemma dict_get_set_ne d k k' v :
  k' <> k -> dict_get k' (dict_set k v d) = dict_get k' d.
Proof.
  intros N. induction d as [|[k0 v0] d IH]; simpl.
  - apply String.eqb_neq in N. now rewrite N.
  - destruct (String.eqb k k0) eqn:E; simpl.
    + apply String.eqb_eq in E. subst k0.
      apply String.eqb_neq in N. now rewrite N.
    + now rewrite IH.
Qed.

Lemma dict_del_set d k v : dict_del k (dict_set k v d) = dict_del k d.
Proof.
  induction d as [|[k' v'] d IH]; simpl.
  - now rewrite String.eqb_refl.
  - destruct (String.eqb k k') eqn:E; simpl.
    + now rewrite String.eqb_refl.
    + rewrite E. congruence.
Qed.

Lemma dict_keys_set_present d k v v0 :
  dict_get k d = Some v0 -> dict_keys (dict_set k v d) = dict_keys d.
Proof.
  induction d as [|[k' v'] d IH]; simpl; [discriminate|].
  destruct (String.eqb k k') eqn:E; simpl.
  - apply String.eqb_eq in E. now subst.
  - intros H. unfold dict_keys in *. simpl. now rewrite IH.
Qed.
End DictFacts.

(** ** Forward computations *)

Lemma Forward_eqb_refl f : Forward_eqb f f = true.
Proof.
  induction f as [fn|c n f IH]; simpl.
  - apply Nat.eqb_refl.
  - now rewrite Nat.eqb_refl, String.eqb_refl, IH.
Qed.

Lemma Forward_eqb_eq f g : Forward_eqb f g = true <-> f = g.
Proof.
  split; [|intros ->; apply Forward_eqb_refl].
  revert g. induction f as [fn|c n f IH]; intros [gn|d m g]; simpl; try discriminate.
  - intros H. apply Nat.eqb_eq in H. now subst.
  - intros H. apply andb_prop in H. destruct H as [H H3].
    apply andb_prop in H. destruct H as [H1 H2].
    apply Nat.eqb_eq in H1. apply String.eqb_eq in H2. apply IH in H3.
    now subst.
Qed.

Lemma wrap_layers_self items w : self (wrap_layers items w) = self w.
Proof.
  revert w. induction items as [|[name [layer fo]] items IH]; intros w; simpl; auto.
  destruct (Forward_eqb (forward w layer) fo); rewrite IH; reflexivity.
Qed.

Lemma wrap_layers_pool_log items w : pool_log (wrap_layers items w) = pool_log w.
Proof.
  revert w. induction items as [|[name [layer fo]] items IH]; intros w; simpl; auto.
  destruct (Forward_eqb (forward w layer) fo); rewrite IH; reflexivity.
Qed.

Lemma wrap_layers_forward_other items w l :
  ~ In l (layers_of items) -> forward (wrap_layers items w) l = forward w l.
Proof.
  revert w. induction items as [|[name [layer fo]] items IH]; intros w N; simpl; auto.
  simpl in N.
  assert (Hl : Nat.eqb l layer = false) by (apply Nat.eqb_neq; intuition).
  destruct (Forward_eqb (forward w layer) fo).
  - rewrite IH by intuition. simpl. now rewrite Hl.
  - apply IH. intuition.
Qed.


Lemma restore_layers_pool_log items w : pool_log (restore_layers items w) = pool_log w.
Proof.
  revert w. induction items as [|[name [layer fo]] items IH]; intros w; simpl; auto.
  now rewrite IH.
Qed.

Lemma restore_layers_forward_other items w l :
  ~ In l (layers_of items) -> forward (restore_layers items w) l = forward w l.
Proof.
  revert w. induction items as [|[name [layer fo]] items IH]; intros w N; simpl; auto.
  simpl in N. rewrite IH by intuition. simpl.
  assert (Hl : Nat.eqb l layer = false) by (apply Nat.eqb_neq; intuition).
  now rewrite Hl.
Qed.

(** When every registration of [l] records the same original [f], the
    restoring loop leaves [l] with [f]. *)
Lemma restore_layers_forward items w l f :
  In l (layers_of items) ->
  (forall name fo, In (name, (l, fo)) items -> fo = f) ->
  forward (restore_layers items w) l = f.
Proof.
  revert w. induction items as [|[name [layer fo]] items IH]; intros w HI HF; simpl.
  - destruct HI.
  - destruct (in_dec Nat.eq_dec l (layers_of items)) as [HI'|HN].
    + apply IH; auto. intros n g Hg. apply (HF n g). now right.
    + rewrite restore_layers_forward_other by assumption. simpl.
      simpl in HI. destruct HI as [HI|HI]; [|contradiction]. subst layer.
      rewrite Nat.eqb_refl. apply (HF name fo). now left.
Qed.

Lemma dict_get_In {V} (d : dict V) k v : dict_get k d = Some v -> In (k, v) d.
Proof.
  induction d as [|[k' v'] d IH]; simpl; [discriminate|].
  destruct (String.eqb k k') eqn:E.
  - apply String.eqb_eq in E. intros [= ->]. subst. now left.
  - intros H. right. auto.
Qed.

Section InterceptorFacts.

Variable native : nat -> Tensor -> Tensor.
Variable process : MutualInfo -> string -> Value -> Outcome ndarray MutualInfo.
Variable compute_mutual_info : Value -> ndarray -> Exception + Q.

Lemma merge_results_frame snapshot args w :
  let w' := state_of (merge_results process compute_mutual_info snapshot args w) in
  forward w' = forward w /\ is_active (self w') = is_active (self w)
  /\ layers (self w') = layers (self w).
Proof.
  revert w. induction args as [|job args IH]; intros w; simpl; auto.
  destruct (_compute_async process compute_mutual_info snapshot job)
    as [e|[[[[hname q] ix] iy] nb]]; simpl; auto.
  specialize (IH (set_self
    (set_n_bins (dict_set hname nb (n_bins (self w)))
       (set_quantized (dict_set hname (Array q) (quantized (self w)))
          (set_information (dict_set hname (ix, iy) (information (self w))) (self w)))) w)).
  simpl in IH. exact IH.
Qed.

Lemma save_information_async_frame w :
  let w' := state_of (save_information_async process compute_mutual_info w) in
  forward w' = forward w /\ is_active (self w') = is_active (self w)
  /\ layers (self w') = layers (self w).
Proof.
  unfold save_information_async.
  destruct (defaultdict_get (Batches []) "input" (activations (self w))) as [input acts].
  match goal with |- context [pop_all ?n ?a] => destruct (pop_all n a) as [args acts'] end.
  match goal with |- context [merge_results _ _ ?s ?a ?w0] =>
    pose proof (merge_results_frame s a w0) as H end.
  simpl in H. exact H.
Qed.

Lemma unregistered_consistent w : layers (self w) = [] -> consistent w.
Proof. intros H name layer fo Hin. rewrite H in Hin. destruct Hin. Qed.

Lemma register_consistent layer name w : consistent w -> consistent (register layer name w).
Proof.
  unfold consistent, register. simpl. intros H n l fo.
  generalize (layers (self w)) H. clear H.
  intros d. induction d as [|[k [l0 f0]] d IH]; simpl; intros H HI.
  - destruct HI as [[= <- <- <-]|[]]. reflexivity.
  - destruct (String.eqb name k) eqn:E.
    + destruct HI as [[= <- <- <-]|HI]; [reflexivity|].
      apply (H n l fo). now right.
    + destruct HI as [[= <- <- <-]|HI].
      * apply (H k l0 f0). now left.
      * apply IH; auto. intros n' l' f' H'. apply (H n' l' f'). now right.
Qed.

(** Outside a session a forward call does not depend on the monitor. *)
Lemma call_inactive f x w :
  is_active (self w) = false ->
  call native f x w =
    match f with
    | Original fn => Return (native fn x) w
    | forward_and_save _ _ _ => Raise (AssertionError "Did you forget to start the job?") w
    end.
Proof. intros H. destruct f; simpl; [reflexivity|]. now rewrite H. Qed.

End InterceptorFacts.

(** ** The interceptor *)

Section InterceptorTheorems.

Variable native : nat -> Tensor -> Tensor.
Variable process : MutualInfo -> string -> Value -> Outcome ndarray MutualInfo.
Variable compute_mutual_info : Value -> ndarray -> Exception + Q.

Lemma round_trip_frame due w :
  is_active (self w) = false -> consistent w ->
  let w' := state_of (finish_listening process compute_mutual_info (start_listening due w)) in
  is_active (self w') = false /\ forall l, forward w' l = forward w l.
Proof.
  intros Hact Hc. unfold finish_listening, start_listening, Schedule.
  destruct due; simpl.
  2:{ rewrite Hact. simpl. auto. }
  rewrite wrap_layers_self.
  match goal with |- context [save_information_async _ _ ?w0] =>
    destruct (save_information_async_frame process compute_mutual_info w0) as (Hf & Ha & _)
  end.
  simpl in Hf, Ha.
  split; [exact Ha|]. intros l. rewrite Hf.
  set (ws := set_self _ _).
  destruct (in_dec Nat.eq_dec l (layers_of (layers (self w)))) as [HI|HN].
  - apply restore_layers_forward; auto.
    intros name fo Hin. symmetry. apply (Hc name l fo Hin).
  - rewrite restore_layers_forward_other by assumption.
    subst ws. simpl. now apply wrap_layers_forward_other.
Qed.

(** C1. For a monitor outside a session whose registrations recorded the
    present forward computations (as [register] leaves them), a call of
    [start_listening] followed by [finish_listening] leaves every
    registered layer with exactly its recorded original, whether or not
    the scheduling gate let the session start; a forward pass of the
    layer then gives the same output as before, for every input. *)
Theorem start_finish_restores_forward due w name layer fo :
  is_active (self w) = false ->
  consistent w ->
  dict_get name (layers (self w)) = Some (layer, fo) ->
  let w' := state_of (finish_listening process compute_mutual_info (start_listening due w)) in
  forward w' layer = fo
  /\ forward w' layer = forward w layer
  /\ forall x, output (call native (forward w' layer) x w')
               = output (call native (forward w layer) x w).
Proof.
  intros Hact Hc Hget w'.
  destruct (round_trip_frame due w Hact Hc) as [Ha Hf]. fold w' in Ha, Hf.
  assert (Hfo : forward w layer = fo) by (apply (Hc name), dict_get_In, Hget).
  repeat split.
  - now rewrite Hf.
  - apply Hf.
  - intros x. rewrite Hf, !call_inactive by assumption.
    destruct (forward w layer); reflexivity.
Qed.

(** C5. Outside a session [finish_listening] returns at once and leaves
    the whole world as it was: the forward computations, the buffers, the
    quantized cache, the information record, the bin counts, the flag,
    and the log of jobs given to process pools. *)
Theorem finish_listening_inactive w :
  is_active (self w) = false ->
  finish_listening process compute_mutual_info w = Return tt w.
Proof. intros H. unfold finish_listening. now rewrite H. Qed.

(** C10. [register] leaves every [forward] attribute and everything but
    [self.layers] alone, and stores under [name] the layer with its
    forward computation of the moment, whatever was stored before: a
    second registration of the name replaces the first and adds no key,
    and a wrapped layer is recorded with its wrapper.  The entries of
    the other names are kept. *)
Theorem register_stores_current_forward layer name w :
  let w' := register layer name w in
  forward w' = forward w
  /\ closures w' = closures w
  /\ pool_log w' = pool_log w
  /\ set_layers (layers (self w)) (self w') = self w
  /\ dict_get name (layers (self w')) = Some (layer, forward w layer)
  /\ dict_del name (layers (self w')) = dict_del name (layers (self w))
  /\ (forall layer2,
        let w'' := register layer2 name w' in
        dict_get name (layers (self w'')) = Some (layer2, forward w layer2)
        /\ dict_keys (layers (self w'')) = dict_keys (layers (self w')))
  /\ (forall closure layer_name forward_orig,
        let wrapped := forward_and_save closure layer_name forward_orig in
        let w1 := set_forward layer wrapped w' in
        forward (register layer name w1) layer = wrapped
        /\ dict_get name (layers (self (register layer name w1))) = Some (layer, wrapped)).
Proof.
  unfold register. simpl. repeat split.
  - destruct (self w); reflexivity.
  - apply dict_get_set_eq.
  - apply dict_del_set.
  - apply dict_get_set_eq.
  - apply dict_keys_set_present with (v0 := (layer, forward w layer)).
    apply dict_get_set_eq.
  - now rewrite Nat.eqb_refl.
  - rewrite Nat.eqb_refl. apply dict_get_set_eq.
Qed.


End InterceptorTheorems.

Lemma one_layer_consistent : consistent one_layer.
Proof.
  apply register_consistent. intros name layer fo H. destruct H.
Qed.

(** The round trip on the one-layer monitor, with the gate permitting. *)
Lemma start_finish_restores_forward_witness :
  let w' := state_of (finish_listening empty_process zero_information
                        (start_listening true one_layer)) in
  forward w' 0 = Original 0
  /\ forward w' 0 = forward one_layer 0
  /\ forall x, output (call doubling (forward w' 0) x w')
               = output (call doubling (forward one_layer 0) x one_layer).
Proof.
  apply (start_finish_restores_forward doubling empty_process zero_information
           true one_layer "fc" 0 (Original 0)).
  - reflexivity.
  - exact one_layer_consistent.
  - reflexivity.
Defined.

(** Outside a session even a stale wrapper is left in place. *)
Lemma finish_listening_inactive_witness :
  is_active (self stale) = false
  /\ finish_listening empty_process zero_information stale = Return tt stale.
Proof.
  split; [reflexivity|].
  apply (finish_listening_inactive empty_process zero_information stale).
  reflexivity.
Defined.



(** ** The wrapped forward computation *)

Lemma total_samples_app l l' : total_samples (l ++ l') = total_samples l + total_samples l'.
Proof. unfold total_samples. now rewrite map_app, list_sum_app. Qed.

Lemma lt_size_mono a b s : (a <= b)%Z -> lt_size b s = true -> lt_size a s = true.
Proof.
  destruct s as [n|]; simpl; auto. intros H1 H2.
  apply Z.ltb_lt in H2. apply Z.ltb_lt. lia.
Qed.

Lemma repeat_snoc {A} (y : A) k : repeat y k ++ [y] = repeat y (S k).
Proof. induction k as [|k IH]; simpl; [reflexivity|]. now rewrite IH. Qed.

Section WrapperFacts.

Variable native : nat -> Tensor -> Tensor.

Lemma save_activations_buffer name y w :
  is_buffer name w = true ->
  exists w',
    save_activations name y w = Return tt w'
    /\ is_active (self w') = is_active (self w)
    /\ estimate_size (self w') = estimate_size (self w)
    /\ forward w' = forward w
    /\ is_buffer name w' = true
    /\ buffer name w' = (if below_cap name w then buffer name w ++ [y] else buffer name w)
    /\ forall m, m <> name ->
         dict_get m (activations (self w')) = dict_get m (activations (self w)).
Proof.
  unfold is_buffer, below_cap, buffer, save_activations, defaultdict_get.
  destruct (dict_get name (activations (self w))) as [[l|a]|] eqn:E; try discriminate;
    intros _.
  - destruct (lt_size _ _) eqn:L; eexists; (split; [reflexivity|]); simpl;
      repeat split; auto.
    + now rewrite dict_get_set_eq.
    + now rewrite dict_get_set_eq.
    + intros m Hm. now apply dict_get_set_ne.
    + now rewrite E.
    + now rewrite E.
  - simpl. destruct (lt_size 0 _) eqn:L; eexists; (split; [reflexivity|]); simpl;
      repeat split; auto.
    + now rewrite dict_get_set_eq.
    + now rewrite dict_get_set_eq.
    + intros m Hm. now rewrite !dict_get_set_ne.
    + now rewrite dict_get_set_eq.
    + now rewrite dict_get_set_eq.
    + intros m Hm. now rewrite dict_get_set_ne.
Qed.

(** Inside a session a call through any stack of wrappers returns the
    output of the computation underneath, and a buffer receives that
    output (once per wrapper that finds room) exactly when it is the
    buffer of one of the wrappers and was below the cap. *)
Lemma call_active f x w :
  is_active (self w) = true ->
  (forall n, In n (wrapper_names f) -> is_buffer n w = true) ->
  exists w',
    call native f x w = Return (original_output native f x) w'
    /\ is_active (self w') = true
    /\ estimate_size (self w') = estimate_size (self w)
    /\ forward w' = forward w
    /\ forall n,
         (~ In n (wrapper_names f) ->
          dict_get n (activations (self w')) = dict_get n (activations (self w)))
         /\ (is_buffer n w = true ->
             is_buffer n w' = true
             /\ exists k, buffer n w' = buffer n w ++ repeat (original_output native f x) k
                          /\ (0 < k <-> In n (wrapper_names f) /\ below_cap n w = true)).
Proof.
  intros Hact. induction f as [fn|c nm fo IH]; intros Hok; simpl.
  - exists w. repeat split; auto.
    exists 0. simpl. rewrite app_nil_r. split; auto.
    split; [lia|]. intros [[] _].
  - rewrite Hact.
    destruct IH as (w1 & Hcall & Ha1 & Hs1 & Hf1 & Hn1).
    { intros n Hn. apply Hok. now right. }
    rewrite Hcall.
    assert (Hb1 : is_buffer nm w1 = true).
    { apply (Hn1 nm). apply Hok. now left. }
    destruct (save_activations_buffer nm (original_output native fo x) w1 Hb1)
      as (w2 & Hsave & Ha2 & Hs2 & Hf2 & Hb2 & Hbuf & Hoth).
    rewrite Hsave. exists w2.
    split; [reflexivity|]. split; [congruence|]. split; [congruence|].
    split; [congruence|]. intros n. split.
    + intros Hn. simpl in Hn.
      rewrite Hoth by (intros ->; apply Hn; now left).
      apply (Hn1 n). intros H. apply Hn. now right.
    + intros Hbn. destruct (Hn1 n) as [Hkeep Hgrow].
      destruct (Hgrow Hbn) as (Hbn1 & k1 & Hk1 & Hiff).
      destruct (String.eqb n nm) eqn:E.
      * apply String.eqb_eq in E. subst n. split; [exact Hb2|].
        rewrite Hbuf.
        assert (Hmono : below_cap nm w1 = true -> below_cap nm w = true).
        { unfold below_cap. rewrite Hs1, Hk1, total_samples_app.
          apply lt_size_mono. lia. }
        destruct (below_cap nm w1) eqn:B.
        -- exists (S k1). rewrite Hk1, <- app_assoc, repeat_snoc.
           split; [reflexivity|]. split; [|lia].
           intros _. split; [now left|auto].
        -- exists k1. split; [exact Hk1|]. split.
           ++ intros Hk. apply Hiff in Hk. split; [now left|apply Hk].
           ++ intros [_ Hbelow]. destruct k1; [|lia].
              simpl in Hk1. rewrite app_nil_r in Hk1.
              unfold below_cap in B, Hbelow. rewrite Hs1, Hk1 in B. congruence.
      * apply String.eqb_neq in E. split.
        -- unfold is_buffer in *. now rewrite Hoth.
        -- exists k1. split.
           ++ unfold buffer in *. now rewrite Hoth.
           ++ rewrite Hiff. simpl. intuition congruence.
Qed.


End WrapperFacts.


(** ** Reporting *)

Lemma drain_all items :
  drain items items
  = (map (fun e => snd (snd e)) items, map (fun e => fst (snd e)) items, dict_keys items, []).
Proof.
  induction items as [|[k [x y]] items IH]; simpl; [reflexivity|].
  rewrite String.eqb_refl, IH. reflexivity.
Qed.

Section ReportingTheorems.

Variable np_unique_counts : Value -> list Z.
Variable np_vstack_transpose : list Value -> option (list (list Q)).

(** The dispersion plot leaves the information record and the session
    flag alone, and raises nothing but a [ValueError]. *)
Lemma plot_quantized_dispersion_frame due viz w :
  match plot_quantized_dispersion np_unique_counts np_vstack_transpose due viz w with
  | Return _ (w1, _) =>
      information (self w1) = information (self w)
      /\ is_active (self w1) = is_active (self w)
      /\ forward w1 = forward w
  | Raise e _ => e = ValueError
  end.
Proof.
  unfold plot_quantized_dispersion, plot_quantized_dispersion_body.
  destruct due; simpl; auto.
  destruct (existsb _ _); simpl; auto.
  destruct (legend_loop _ _) as [legend nb1].
  destruct (_ =? 1).
  - destruct (defaultdict_get 0%N "input" nb1) as [n nb2].
    destruct (fill_counts _ _ _); simpl; auto.
  - destruct (np_vstack_transpose _); simpl; auto.
Qed.



End ReportingTheorems.


(** ** numpy's [unique] *)

Lemma row_compare_eq r s : row_compare r s = Eq <-> r = s.
Proof.
  revert s. induction r as [|x r IH]; intros [|y s]; simpl; split; try discriminate; auto.
  - destruct (Z.compare x y) eqn:C; try discriminate.
    apply Z.compare_eq_iff in C. intros H. apply IH in H. now subst.
  - intros [= -> ->]. rewrite Z.compare_refl. now apply IH.
Qed.

Lemma row_compare_refl r : row_compare r r = Eq.
Proof. now apply row_compare_eq. Qed.

Lemma row_compare_lt_trans r s t :
  row_compare r s = Lt -> row_compare s t = Lt -> row_compare r t = Lt.
Proof.
  revert s t. induction r as [|x r IH]; intros [|y s] [|z t]; simpl; try discriminate; auto.
  destruct (Z.compare x y) eqn:C1; destruct (Z.compare y z) eqn:C2; try discriminate.
  - apply Z.compare_eq_iff in C1, C2. subst. rewrite Z.compare_refl. apply IH.
  - apply Z.compare_eq_iff in C1. subst. rewrite C2. auto.
  - apply Z.compare_eq_iff in C2. subst. rewrite C1. auto.
  - intros _ _. now rewrite (Z.lt_trans x y z C1 C2).
Qed.

Lemma row_compare_gt_lt r s : row_compare r s = Gt -> row_compare s r = Lt.
Proof.
  revert s. induction r as [|x r IH]; intros [|y s]; simpl; try discriminate; auto.
  rewrite (Z.compare_antisym x y).
  destruct (Z.compare x y); simpl; try discriminate; auto.
Qed.

Lemma insert_unique_In x u r : In r (insert_unique x u) <-> r = x \/ In r u.
Proof.
  induction u as [|s u IH]; simpl.
  - intuition.
  - destruct (row_compare x s) eqn:C; simpl.
    + apply row_compare_eq in C. subst. intuition.
    + intuition.
    + rewrite IH. intuition.
Qed.

Lemma unique_rows_In rows r : In r (unique_rows rows) <-> In r rows.
Proof.
  induction rows as [|x rows IH]; simpl; [reflexivity|].
  rewrite insert_unique_In, IH. intuition.
Qed.

Lemma insert_unique_sorted x u :
  StronglySorted row_lt u -> StronglySorted row_lt (insert_unique x u).
Proof.
  induction 1 as [|s u Hs IH Hall]; simpl.
  - repeat constructor.
  - destruct (row_compare x s) eqn:C.
    + now constructor.
    + constructor; [now constructor|].
      constructor; [exact C|].
      rewrite Forall_forall in *. intros t Ht.
      apply (row_compare_lt_trans x s t C). now apply Hall.
    + constructor; [exact IH|].
      rewrite Forall_forall in *. intros t Ht.
      apply insert_unique_In in Ht. destruct Ht as [->|Ht].
      * now apply row_compare_gt_lt.
      * now apply Hall.
Qed.

Lemma unique_rows_sorted rows : StronglySorted row_lt (unique_rows rows).
Proof.
  induction rows as [|x rows IH]; simpl.
  - constructor.
  - now apply insert_unique_sorted.
Qed.

Lemma sorted_NoDup u : StronglySorted row_lt u -> NoDup u.
Proof.
  induction 1 as [|s u Hs IH Hall]; constructor; auto.
  intros Hin. rewrite Forall_forall in Hall. specialize (Hall s Hin).
  unfold row_lt in Hall. rewrite row_compare_refl in Hall. discriminate.
Qed.

Lemma unique_rows_NoDup rows : NoDup (unique_rows rows).
Proof. apply sorted_NoDup, unique_rows_sorted. Qed.

Lemma insert_unique_length x u : List.length (insert_unique x u) <= S (List.length u).
Proof.
  induction u as [|s u IH]; simpl; auto.
  destruct (row_compare x s); simpl; lia.
Qed.

Lemma unique_rows_length rows : List.length (unique_rows rows) <= List.length rows.
Proof.
  induction rows as [|x rows IH]; simpl; auto.
  pose proof (insert_unique_length x (unique_rows rows)). lia.
Qed.

Lemma index_of_In r u :
  In r u -> index_of r u < List.length u /\ nth (index_of r u) u [] = r.
Proof.
  induction u as [|s u IH]; simpl; [intros []|].
  intros H. destruct (row_compare r s) eqn:C.
  - apply row_compare_eq in C. subst. split; [lia|reflexivity].
  - destruct H as [->|H]; [rewrite row_compare_refl in C; discriminate|].
    destruct (IH H). split; [lia|assumption].
  - destruct H as [->|H]; [rewrite row_compare_refl in C; discriminate|].
    destruct (IH H). split; [lia|assumption].
Qed.

Lemma index_of_nth u j :
  NoDup u -> j < List.length u -> index_of (nth j u []) u = j.
Proof.
  intros Hnd. revert j. induction Hnd as [|s u Hs Hnd IH]; intros j Hj; simpl in *; [lia|].
  destruct j as [|j].
  - now rewrite row_compare_refl.
  - assert (Hin : In (nth j u []) u) by (apply nth_In; lia).
    destruct (row_compare (nth j u []) s) eqn:C.
    + apply row_compare_eq in C. congruence.
    + rewrite IH; auto. lia.
    + rewrite IH; auto. lia.
Qed.

(** The inverse indices of [np.unique]: one per row, each the position of
    its row among the distinct rows, and every position is used. *)
Lemma np_unique_inverse_spec (a : ndarray) :
  let rows := rows_of a in
  let unique := fst (np_unique_inverse a) in
  let inverse := snd (np_unique_inverse a) in
  unique = unique_rows rows
  /\ List.length inverse = List.length rows
  /\ (forall i, i < List.length rows ->
        nth (Z.to_nat (nth i inverse 0%Z)) unique [] = nth i rows [])
  /\ (forall s, In s inverse <-> (0 <= s < Z.of_nat (List.length unique))%Z).
Proof.
  intros rows unique inverse. unfold np_unique_inverse, np_unique in *. simpl in *.
  fold rows in unique, inverse. fold unique in inverse.
  split; [reflexivity|]. split; [apply length_map|]. split.
  - intros i Hi. unfold inverse.
    rewrite (nth_indep _ 0%Z (Z.of_nat (index_of [] unique)))
      by (now rewrite length_map).
    rewrite (map_nth (fun r => Z.of_nat (index_of r unique))), Nat2Z.id.
    apply index_of_In. apply unique_rows_In. now apply nth_In.
  - intros s. unfold inverse. rewrite in_map_iff. split.
    + intros (r & <- & Hr).
      apply unique_rows_In in Hr. apply index_of_In in Hr. fold unique in Hr. lia.
    + intros Hs. exists (nth (Z.to_nat s) unique []).
      assert (Hj : Z.to_nat s < List.length unique) by lia.
      split.
      * rewrite index_of_nth; [lia|apply unique_rows_NoDup|exact Hj].
      * apply unique_rows_In. now apply nth_In.
Qed.

Lemma nodup_length (l : list Z) : List.length (nodup Z.eq_dec l) <= List.length l.
Proof.
  induction l as [|x l IH]; simpl; auto.
  destruct (in_dec Z.eq_dec x l); simpl; lia.
Qed.

(** ** The quantizers *)

(** The fixed-range and the quantile digitizers always return, with one
    digitized row per sample. *)
Lemma histogram_digitize_returns fit_predict cls layer_name activations n_bins :
  cls <> MutualInfoKMeans ->
  exists rows,
    digitize fit_predict cls layer_name activations n_bins = inr (Arr2 rows)
    /\ List.length rows = List.length activations.
Proof.
  destruct cls; intros H; try (now elim H); eexists; (split; [reflexivity|]);
    apply length_map.
Qed.

Section QuantizerTheorems.

Variable fit_predict : N -> Activations -> Exception + list Z.

(** C6. For the fixed-range and the quantile histogram [quantize]
    returns, for a non-empty activation matrix, one symbol per sample; a
    symbol is the position of the sample's digitized row among the sorted
    distinct digitized rows, so that two samples share a symbol exactly
    when their digitized rows agree; the symbols used are exactly
    0 .. (number of distinct rows - 1); and the number of distinct symbols
    is at most the number of samples. *)
Theorem quantize_dense_alphabet cls layer_name activations n_bins :
  cls <> MutualInfoKMeans ->
  activations <> [] ->
  exists digitized symbols,
    digitize fit_predict cls layer_name activations n_bins = inr (Arr2 digitized)
    /\ quantize fit_predict cls layer_name activations n_bins = inr (Arr1 symbols)
    /\ List.length digitized = List.length activations
    /\ List.length symbols = List.length activations
    /\ NoDup (unique_rows digitized)
    /\ (forall i, i < List.length activations ->
          nth (Z.to_nat (nth i symbols 0%Z)) (unique_rows digitized) [] = nth i digitized [])
    /\ (forall i j, i < List.length activations -> j < List.length activations ->
          (nth i symbols 0%Z = nth j symbols 0%Z
           <-> nth i digitized [] = nth j digitized []))
    /\ (forall s, In s symbols
                  <-> (0 <= s < Z.of_nat (List.length (unique_rows digitized)))%Z)
    /\ distinct symbols <= List.length activations.
Proof.
  intros Hcls _.
  destruct (histogram_digitize_returns fit_predict cls layer_name activations n_bins Hcls)
    as (digitized & Hd & Hlen).
  destruct (np_unique_inverse_spec (Arr2 digitized)) as (Hu & Hl & Hnth & Hrange).
  simpl rows_of in *.
  set (symbols := snd (np_unique_inverse (Arr2 digitized))) in *.
  set (unique := unique_rows digitized) in *.
  rewrite Hu in *.
  exists digitized, symbols.
  assert (Hsym : forall i, i < List.length activations ->
             nth i symbols 0%Z = Z.of_nat (index_of (nth i digitized []) unique)).
  { intros i Hi. unfold symbols, np_unique_inverse, np_unique. simpl. fold unique.
    rewrite (nth_indep _ 0%Z (Z.of_nat (index_of [] unique)))
      by (now rewrite length_map, Hlen).
    now rewrite (map_nth (fun r => Z.of_nat (index_of r unique))). }
  split; [exact Hd|]. split.
  { destruct cls; try (now elim Hcls); simpl in *;
      unfold MutualInfoBin_quantize; simpl; injection Hd as <-; reflexivity. }
  split; [exact Hlen|]. split; [congruence|]. split; [apply unique_rows_NoDup|].
  split; [|split; [|split]].
  - intros i Hi. apply Hnth. now rewrite Hlen.
  - intros i j Hi Hj. split.
    + intros E. rewrite <- (Hnth i), <- (Hnth j) by (now rewrite Hlen). now rewrite E.
    + intros E. now rewrite !Hsym, E.
  - exact Hrange.
  - unfold distinct. rewrite <- Hlen, <- Hl. apply nodup_length.
Qed.

(** C8. For k-means [quantize] is [digitize] itself: the cluster index of
    every sample as [fit_predict] returned it (or the exception it
    raised), with no [np.unique] in between; the other classes return the
    inverse indices of [np.unique] over the digitized rows. *)
Theorem kmeans_quantize_is_digitize layer_name activations n_bins :
  quantize fit_predict MutualInfoKMeans layer_name activations n_bins
  = digitize fit_predict MutualInfoKMeans layer_name activations n_bins
  /\ quantize fit_predict MutualInfoKMeans layer_name activations n_bins
     = match fit_predict n_bins activations with
       | inr labels => inr (Arr1 labels)
       | inl e => inl e
       end
  /\ (forall cls digitized,
        cls <> MutualInfoKMeans ->
        digitize fit_predict cls layer_name activations n_bins = inr digitized ->
        quantize fit_predict cls layer_name activations n_bins
        = inr (Arr1 (snd (np_unique_inverse digitized)))).
Proof.
  repeat split.
  intros cls digitized Hcls Hd.
  destruct cls; try (now elim Hcls); simpl in *; unfold MutualInfoBin_quantize; simpl;
    injection Hd as <-; reflexivity.
Qed.

End QuantizerTheorems.

(** The cluster indices 2, 0, 2 are returned as they are; the collapse would
    have renamed them 1, 0, 1. *)
Lemma kmeans_quantize_is_digitize_witness :
  quantize sparse_clusters MutualInfoKMeans "fc" [[1]; [-1]; [1]]%Q 3 = inr (Arr1 [2; 0; 2]%Z)
  /\ snd (np_unique_inverse (Arr1 [2; 0; 2]%Z)) = [1; 0; 1]%Z
  /\ quantize sparse_clusters MutualInfoBinFixed "fc" outliers 2
     = inr (Arr1 (snd (np_unique_inverse
                         (Arr2 [[2]; [0]; [1]; [1]; [1]; [1]; [1]; [1]; [1]]%Z)))).
Proof.
  destruct (kmeans_quantize_is_digitize sparse_clusters "fc" [[1]; [-1]; [1]]%Q 3)
    as (_ & Hk & _).
  destruct (kmeans_quantize_is_digitize sparse_clusters "fc" outliers 2) as (_ & _ & Hb).
  split; [exact Hk|]. split; [reflexivity|].
  apply (Hb MutualInfoBinFixed); [discriminate|reflexivity].
Defined.

(** The fixed-range histogram of the nine [outliers]. *)
Lemma quantize_dense_alphabet_witness :
  exists symbols,
    quantize sparse_clusters MutualInfoBinFixed "fc" outliers 20 = inr (Arr1 symbols)
    /\ List.length symbols = 9
    /\ distinct symbols <= 9.
Proof.
  destruct (quantize_dense_alphabet sparse_clusters MutualInfoBinFixed "fc" outliers 20)
    as (digitized & symbols & _ & Hq & _ & Hl & _ & _ & _ & _ & Hd).
  - discriminate.
  - discriminate.
  - exists symbols. auto.
Defined.

(** ** The bin-count search *)

Lemma Qgt_bool_iff x y : Qgt_bool x y = true <-> (y < x)%Q.
Proof.
  unfold Qgt_bool. rewrite negb_true_iff, <- not_true_iff_false, Qle_bool_iff.
  split; [apply Qnot_le_lt|apply Qlt_not_le].
Qed.

Section AdjustBins.

Variable fit_predict : N -> Activations -> Exception + list Z.

Lemma histogram_accepts cls layer_name activations :
  cls <> MutualInfoKMeans -> accepts fit_predict cls layer_name activations.
Proof.
  intros H n _.
  destruct (histogram_digitize_returns fit_predict cls layer_name activations n H)
    as (rows & Hd & _).
  eauto.
Qed.

Lemma adjust_bins_loop_search self cls layer_name activations trials :
  activations <> [] ->
  accepts fit_predict cls layer_name activations ->
  forall n_bins,
    (3 <= n_bins)%N ->
    (n_bins * 2 ^ N.of_nat trials <= 20480)%N ->
    exists k r,
      adjust_bins_loop fit_predict self cls layer_name activations trials n_bins = inr (k, r)
      /\ k <= trials
      /\ (2 <= r)%N
      /\ bin_search (compression fit_predict cls layer_name activations)
                    (fst (compression_range self)) (snd (compression_range self))
                    trials n_bins k r.
Proof.
  intros Hne Hacc. induction trials as [|t IH]; intros n Hn Hup.
  - exists 0, n. simpl. repeat split; auto; try lia. constructor.
  - rewrite Nat2N.inj_succ, N.pow_succ_r' in Hup.
    assert (Hp : (2 ^ N.of_nat t <> 0)%N) by (apply N.pow_nonzero; lia).
    set (p := (2 ^ N.of_nat t)%N) in *.
    assert (Hn' : (n <= 10240)%N) by nia.
    assert (Hdouble : (n * 2 * p <= 20480)%N) by nia.
    assert (Hhalve : (N.max 2 (n / 2) * p <= 20480)%N).
    { assert (n / 2 <= n)%N by (apply N.Div0.div_le_upper_bound; lia). nia. }
    clearbody p. clear Hup.
    destruct (Hacc n (conj Hn Hn')) as (digitized & Hd).
    simpl. destruct (compression_range self) as [cmin cmax] eqn:Hcr. simpl fst. simpl snd.
    rewrite Hd.
    destruct (Z.of_nat (List.length activations) =? 0)%Z eqn:Hz.
    { apply Z.eqb_eq in Hz. destruct activations; [congruence|simpl in Hz; lia]. }
    set (c := (inject_Z _ / inject_Z _)%Q).
    destruct (Qgt_bool c cmax) eqn:Hmax.
    + apply Qgt_bool_iff in Hmax.
      destruct (IH (n * 2)%N) as (k & r & Hloop & Hk & Hr & Hs); [lia|exact Hdouble|].
      rewrite Hloop. exists (S k), r. repeat split; auto; try lia.
      apply search_double; [|exact Hs].
      unfold compression. now rewrite Hd.
    + assert (Hmax' : ~ (cmax < c)%Q).
      { rewrite <- Qgt_bool_iff. congruence. }
      destruct (Qgt_bool cmin c) eqn:Hmin.
      * apply Qgt_bool_iff in Hmin.
        destruct (N.max 2 (n / 2) =? 2)%N eqn:Hfloor.
        -- apply N.eqb_eq in Hfloor. exists 1, (N.max 2 (n / 2)).
           repeat split; auto; try lia.
           rewrite Hfloor. apply search_floor; auto; unfold compression; now rewrite Hd.
        -- apply N.eqb_neq in Hfloor.
           destruct (IH (N.max 2 (n / 2))) as (k & r & Hloop & Hk & Hr & Hs);
             [lia|exact Hhalve|].
           rewrite Hloop. exists (S k), r. repeat split; auto; try lia.
           apply search_halve; auto; unfold compression; now rewrite Hd.
      * assert (Hmin' : ~ (c < cmin)%Q).
        { rewrite <- Qgt_bool_iff. congruence. }
        exists 1, n. repeat split; auto; try lia.
        apply search_accept; unfold compression; now rewrite Hd.
Qed.


(** On a matrix without samples the compression divides by zero, if the
    digitizer has not raised before. *)
Lemma adjust_bins_no_samples self cls layer_name :
  max_trials_adjust self <> 0 ->
  exists e, adjust_bins fit_predict self cls layer_name [] = inl e.
Proof.
  intros H. unfold adjust_bins, adjust_bins_trials.
  destruct (max_trials_adjust self) as [|t]; [congruence|].
  simpl. destruct (compression_range self).
  destruct (digitize fit_predict cls layer_name [] n_bins_default); eauto.
Qed.

End AdjustBins.



(** Ten doublings when the compression never comes down to the maximum:
    all the samples fall into one cluster and the window is [0, 1/2]. *)
Example adjust_bins_spends_budget :
  adjust_bins_trials (fun _ acts => inr (map (fun _ => 0%Z) acts))
    (init Inf (0%Q, (1 # 2)%Q) false) MutualInfoKMeans "fc" outliers
  = inr (10, 20480%N).
Proof. reflexivity. Qed.

(** Halving down to the floor: every sample its own cluster. *)
Example adjust_bins_reaches_floor :
  adjust_bins_trials (fun _ acts => inr (map Z.of_nat (seq 0 (List.length acts))))
    default_monitor MutualInfoKMeans "fc" outliers
  = inr (3, 2%N).
Proof. reflexivity. Qed.

(** ** The fixed-range digitizer *)

Lemma clamp_range lo hi x : (lo <= hi)%Q -> (lo <= clamp lo hi x <= hi)%Q.
Proof.
  intros H. unfold clamp.
  destruct (Qle_bool x lo) eqn:E1.
  - destruct (Qle_bool hi lo) eqn:E2.
    + split; [exact H|apply Qle_refl].
    + split; [apply Qle_refl|exact H].
  - assert (Hlo : (lo <= x)%Q).
    { apply Qlt_le_weak, Qnot_le_lt. rewrite <- Qle_bool_iff. congruence. }
    destruct (Qle_bool hi x) eqn:E2.
    + split; [exact H|apply Qle_refl].
    + split; [exact Hlo|].
      apply Qlt_le_weak, Qnot_le_lt. rewrite <- Qle_bool_iff. congruence.
Qed.




(** C7. The fixed-range digitizer has one level more than [n_bins]: its
    levels are 0, ..., [n_bins], and a sample at or above mean + 2 sig is
    clamped to the level [n_bins] itself.  With two bins the nine samples
    of [outliers] (mean 0, standard deviation 1/2) take the three levels
    0, 1 and 2; with twenty bins the top sample takes level 20. *)
Theorem fixed_digitize_reaches_level_n_bins :
  MutualInfoBinFixed_digitize "fc" outliers 2
  = inr (Arr2 [[2]; [0]; [1]; [1]; [1]; [1]; [1]; [1]; [1]]%Z)
  /\ MutualInfoBinFixed_digitize "fc" outliers 20
     = inr (Arr2 [[20]; [0]; [10]; [10]; [10]; [10]; [10]; [10]; [10]]%Z)
  /\ (Qeq (mean (column 0 outliers)) 0 /\ Qeq (std (column 0 outliers)) (1 # 2)).
Proof. repeat split. Qed.

(** * Further properties of the interceptor *)

Lemma only_activations_refl w : only_activations w w.
Proof. unfold only_activations. destruct w as [m f c p]. destruct m. reflexivity. Qed.

Lemma only_activations_trans w w1 w2 :
  only_activations w w1 -> only_activations w1 w2 -> only_activations w w2.
Proof.
  unfold only_activations. intros H1 H2.
  rewrite H2. simpl. rewrite H1. reflexivity.
Qed.

(** What [only_activations] preserves. *)
Lemma only_activations_frame w w' :
  only_activations w w' ->
  forward w' = forward w
  /\ closures w' = closures w
  /\ pool_log w' = pool_log w
  /\ layers (self w') = layers (self w)
  /\ is_active (self w') = is_active (self w)
  /\ estimate_size (self w') = estimate_size (self w)
  /\ information (self w') = information (self w)
  /\ quantized (self w') = quantized (self w)
  /\ n_bins (self w') = n_bins (self w)
  /\ eval_loader (self w') = eval_loader (self w).
Proof. intros H. rewrite H. simpl. repeat split. Qed.

Section ForwardPass.

Variable native : nat -> Tensor -> Tensor.

Lemma save_activations_only name t w :
  only_activations w (state_of (save_activations name t w)).
Proof.
  unfold only_activations, save_activations.
  destruct (defaultdict_get (Batches []) name (activations (self w))) as [v acts].
  destruct v as [l|[[|z v]|rows]]; simpl;
    repeat match goal with |- context [if ?b then _ else _] => destruct b end;
    reflexivity.
Qed.

Lemma call_only f x w : only_activations w (state_of (call native f x w)).
Proof.
  revert w. induction f as [fn|c n f IH]; intros w; simpl.
  - apply only_activations_refl.
  - destruct (is_active (self w)); [|apply only_activations_refl].
    specialize (IH w).
    destruct (call native f x w) as [y w1|e w1]; simpl in *; [|exact IH].
    pose proof (save_activations_only n y w1) as Hs.
    destruct (save_activations n y w1) as [u w2|e w2]; simpl in *;
      eapply only_activations_trans; eauto.
Qed.

Lemma model_call_only model x w :
  only_activations w (state_of (model_call native model x w)).
Proof.
  revert x w. induction model as [|l model IH]; intros x w; simpl.
  - apply only_activations_refl.
  - pose proof (call_only (forward w l) x w) as Hc.
    destruct (call native (forward w l) x w) as [y w1|e w1]; simpl in *; [|exact Hc].
    eapply only_activations_trans; [exact Hc|apply IH].
Qed.

Lemma run_batches_only model bs batch_id loader w :
  only_activations w (state_of (run_batches native model bs batch_id loader w)).
Proof.
  revert batch_id w. induction bs as [|[images labels] bs IH]; intros batch_id w; simpl.
  - apply only_activations_refl.
  - pose proof (model_call_only model images w) as Hc.
    destruct (model_call native model images w) as [y w1|e w1]; simpl in *; [|exact Hc].
    destruct (ge_size _ _); simpl; [exact Hc|].
    eapply only_activations_trans; [exact Hc|apply IH].
Qed.

(** X1. A forward pass, of one layer or of the model and whether it
    returns or raises, changes nothing but [self.activations]: the
    [forward] attributes, the registrations, the session flag, the
    information record, the quantized cache, the bin counts and the
    evaluation loader are as before. *)
Theorem forward_pass_touches_only_activations model f x w :
  let w1 := state_of (call native f x w) in
  let w2 := state_of (model_call native model x w) in
  (w1 = set_self (set_activations (activations (self w1)) (self w)) w)
  /\ (w2 = set_self (set_activations (activations (self w2)) (self w)) w)
  /\ forward w2 = forward w
  /\ layers (self w2) = layers (self w)
  /\ is_active (self w2) = is_active (self w)
  /\ information (self w2) = information (self w)
  /\ quantized (self w2) = quantized (self w)
  /\ n_bins (self w2) = n_bins (self w).
Proof.
  intros w1 w2.
  pose proof (call_only f x w) as H1. pose proof (model_call_only model x w) as H2.
  fold w1 in H1. fold w2 in H2.
  destruct (only_activations_frame w w2 H2) as (? & ? & ? & ? & ? & ? & ? & ? & ? & ?).
  repeat split; assumption.
Qed.

End ForwardPass.

(** ** Wrapping *)

Lemma stacked_trans f g h : stacked f g -> stacked g h -> stacked f h.
Proof. intros Hfg Hgh. induction Hgh; [assumption|now constructor]. Qed.

Lemma stacked_depth f g : stacked f g -> depth f <= depth g.
Proof. induction 1; simpl; lia. Qed.

Lemma stacked_original_output native f g x :
  stacked f g -> original_output native g x = original_output native f x.
Proof. induction 1; simpl; auto. Qed.

Lemma wrap_layers_stacked items w l :
  stacked (forward w l) (forward (wrap_layers items w) l).
Proof.
  revert w. induction items as [|[name [layer fo]] items IH]; intros w; simpl.
  - constructor.
  - destruct (Forward_eqb (forward w layer) fo) eqn:E; [|apply IH].
    apply Forward_eqb_eq in E.
    eapply stacked_trans; [|apply IH]. simpl.
    destruct (Nat.eqb l layer) eqn:El; [|constructor].
    apply Nat.eqb_eq in El. subst. repeat constructor.
Qed.

Lemma wrap_layers_names items w l n :
  In n (wrapper_names (forward (wrap_layers items w) l)) ->
  In n (wrapper_names (forward w l)) \/ In n (dict_keys items).
Proof.
  revert w. induction items as [|[name [layer fo]] items IH]; intros w; simpl; auto.
  destruct (Forward_eqb (forward w layer) fo) eqn:E.
  - apply Forward_eqb_eq in E. intros H. apply IH in H. simpl in H.
    destruct H as [H|H]; [|auto].
    destruct (Nat.eqb l layer) eqn:El; [|auto].
    apply Nat.eqb_eq in El. subst. simpl in H. intuition.
  - intros H. apply IH in H. intuition.
Qed.

Lemma wrap_layers_noop items w :
  (forall n l fo, In (n, (l, fo)) items -> forward w l <> fo) ->
  wrap_layers items w = w.
Proof.
  induction items as [|[name [layer fo]] items IH]; intros H; simpl; auto.
  destruct (Forward_eqb (forward w layer) fo) eqn:E.
  - apply Forward_eqb_eq in E. exfalso. apply (H name layer fo); [now left|exact E].
  - apply IH. intros n l f Hin. apply (H n). now right.
Qed.

(** Once the loop has passed a registration, the layer carries more
    wrappers than the recorded original has. *)
Lemma wrap_layers_deeper items w :
  (forall n l fo, In (n, (l, fo)) items ->
                  forward w l = fo \/ depth fo < depth (forward w l)) ->
  forall n l fo, In (n, (l, fo)) items ->
                 depth fo < depth (forward (wrap_layers items w) l).
Proof.
  revert w. induction items as [|[name [layer f0]] items IH]; intros w Hinv n l fo Hin.
  - destruct Hin.
  - simpl. destruct (Forward_eqb (forward w layer) f0) eqn:E.
    + apply Forward_eqb_eq in E.
      set (w' := set_forward layer _ _).
      assert (Hinv' : forall n l fo, In (n, (l, fo)) items ->
                        forward w' l = fo \/ depth fo < depth (forward w' l)).
      { intros n1 l1 f1 H1. unfold w'. simpl.
        destruct (Nat.eqb l1 layer) eqn:El.
        - apply Nat.eqb_eq in El. subst l1. right. simpl.
          pose proof (Hinv n1 layer f1 (or_intror H1)) as Hi. rewrite E in Hi.
          destruct Hi as [<-|Hd]; lia.
        - apply (Hinv n1 l1 f1). now right. }
      destruct Hin as [[= <- <- <-]|Hin]; [|now apply (IH w' Hinv' n l fo)].
      pose proof (stacked_depth _ _ (wrap_layers_stacked items w' layer)) as Hd.
      unfold w' in Hd at 1. simpl in Hd. rewrite Nat.eqb_refl in Hd. simpl in Hd. lia.
    + assert (Hinv' : forall n l fo, In (n, (l, fo)) items ->
                        forward w l = fo \/ depth fo < depth (forward w l)).
      { intros n1 l1 f1 H1. apply (Hinv n1 l1 f1). now right. }
      destruct Hin as [[= <- <- <-]|Hin]; [|now apply (IH w Hinv' n l fo)].
      pose proof (stacked_depth _ _ (wrap_layers_stacked items w layer)) as Hd.
      destruct (Hinv name layer f0 (or_introl eq_refl)) as [Heq|Hlt]; [|lia].
      rewrite Heq, Forward_eqb_refl in E. discriminate.
Qed.

Lemma wrap_layers_exact items w :
  NoDup (layers_of items) ->
  (forall n l fo, In (n, (l, fo)) items -> forward w l = fo) ->
  forall n l fo, In (n, (l, fo)) items ->
    exists c, forward (wrap_layers items w) l = forward_and_save c n fo.
Proof.
  revert w. induction items as [|[name [layer f0]] items IH]; intros w Hnd Hc n l fo Hin.
  - destruct Hin.
  - simpl in Hnd. inversion Hnd as [|? ? Hnotin Hnd']; subst.
    simpl. rewrite (Hc name layer f0 (or_introl eq_refl)), Forward_eqb_refl.
    set (w' := set_forward layer _ _).
    destruct Hin as [[= <- <- <-]|Hin].
    + exists (closures w). rewrite wrap_layers_forward_other by assumption.
      unfold w'. simpl. now rewrite Nat.eqb_refl.
    + apply (IH w' Hnd'); [|exact Hin].
      intros n1 l1 f1 H1. unfold w'. simpl.
      destruct (Nat.eqb l1 layer) eqn:El.
      * apply Nat.eqb_eq in El. subst l1. exfalso. apply Hnotin.
        unfold layers_of. apply in_map_iff. exists (n1, (layer, f1)). auto.
      * apply (Hc n1 l1 f1). now right.
Qed.

(** X2. With the gate permitting, [start_listening] on a monitor whose
    registrations recorded the layers' present forwards, each layer under
    one name, leaves every registered layer with one new closure over its
    name and its recorded original, every other module as it was, the
    registrations unchanged and the session active. *)
Theorem start_listening_wraps_registered_layers w :
  consistent w ->
  NoDup (layers_of (layers (self w))) ->
  let w1 := start_listening true w in
  is_active (self w1) = true
  /\ layers (self w1) = layers (self w)
  /\ (forall name layer fo,
        In (name, (layer, fo)) (layers (self w)) ->
        exists closure, forward w1 layer = forward_and_save closure name fo)
  /\ (forall l, ~ In l (layers_of (layers (self w))) -> forward w1 l = forward w l).
Proof.
  intros Hc Hnd w1. unfold w1, start_listening, Schedule. simpl.
  split; [reflexivity|]. split; [now rewrite wrap_layers_self|]. split.
  - intros name layer fo Hin. now apply wrap_layers_exact.
  - intros l Hl. now apply wrap_layers_forward_other.
Qed.

(** X3. A second [start_listening] (the gate permitting both) changes
    nothing: a layer that is already wrapped no longer compares equal to
    its recorded original, so no wrapper is put over a wrapper and no
    closure is allocated. *)
Theorem start_listening_twice_wraps_once w :
  consistent w ->
  start_listening true (start_listening true w) = start_listening true w.
Proof.
  intros Hc. unfold start_listening, Schedule. simpl.
  rewrite !wrap_layers_self.
  set (w1 := set_self _ (wrap_layers _ w)).
  assert (Hnoop : wrap_layers (layers (self w)) w1 = w1).
  { apply wrap_layers_noop. intros n l fo Hin Heq.
    assert (Hd : depth fo < depth (forward w1 l)).
    { unfold w1. simpl. apply (wrap_layers_deeper (layers (self w)) w) with (n := n); auto.
      intros n1 l1 f1 H1. left. now apply (Hc n1). }
    rewrite Heq in Hd. lia. }
  rewrite Hnoop. reflexivity.
Qed.

(** ** Forward passes of the model *)

Section ModelPass.

Variable native : nat -> Tensor -> Tensor.

Lemma model_output_stacked fwd fwd' model x :
  (forall l, stacked (fwd l) (fwd' l)) ->
  model_output native fwd' model x = model_output native fwd model x.
Proof.
  intros H. revert x. induction model as [|l model IH]; intros x; simpl; auto.
  now rewrite (stacked_original_output native _ _ x (H l)), IH.
Qed.

Lemma model_call_uninstrumented model x w :
  uninstrumented w ->
  model_call native model x w = Return (model_output native (forward w) model x) w.
Proof.
  intros Hu. revert x. induction model as [|l model IH]; intros x; simpl; auto.
  destruct (Hu l) as [fn Hfn]. rewrite Hfn. simpl. apply IH.
Qed.

(** Inside a session a pass through wrapped layers returns what the
    uninstrumented model computes. *)
Lemma model_call_active model x w :
  is_active (self w) = true ->
  (forall l n, In n (wrapper_names (forward w l)) -> is_buffer n w = true) ->
  exists w',
    model_call native model x w = Return (model_output native (forward w) model x) w'
    /\ only_activations w w'
    /\ (forall n, is_buffer n w = true -> is_buffer n w' = true).
Proof.
  revert x w. induction model as [|l model IH]; intros x w Hact Hok; simpl.
  - exists w. repeat split; auto using only_activations_refl.
  - destruct (call_active native (forward w l) x w Hact) as (w1 & Hcall & Ha1 & _ & Hf1 & Hn1).
    { intros n Hn. now apply (Hok l n). }
    rewrite Hcall.
    destruct (IH (original_output native (forward w l) x) w1 Ha1) as (w' & Hm & Ho & Hb).
    { intros l' n Hn. rewrite Hf1 in Hn. apply (Hn1 n). now apply (Hok l' n). }
    exists w'. rewrite Hf1 in Hm. split; [exact Hm|]. split.
    + eapply only_activations_trans; [|exact Ho].
      pose proof (call_only native (forward w l) x w) as Hc. now rewrite Hcall in Hc.
    + intros n Hn. apply Hb. now apply (Hn1 n).
Qed.


(** After [start_listening] the wrappers carry registered names only,
    over what the modules computed before. *)
Lemma start_listening_wrappers due w l :
  stacked (forward w l) (forward (start_listening due w) l)
  /\ (uninstrumented w ->
      forall n, In n (wrapper_names (forward (start_listening due w) l)) ->
                In n (dict_keys (layers (self w)))).
Proof.
  unfold start_listening, Schedule. destruct due; simpl.
  - split; [apply wrap_layers_stacked|].
    intros Hu n Hn. apply wrap_layers_names in Hn. destruct Hn as [Hn|Hn]; [|exact Hn].
    destruct (Hu l) as [fn Hfn]. rewrite Hfn in Hn. destruct Hn.
  - split; [constructor|]. intros Hu n Hn.
    destruct (Hu l) as [fn Hfn]. rewrite Hfn in Hn. destruct Hn.
Qed.

(** X4. Interception is transparent: inside a session a forward pass of
    an uninstrumented model returns the very output it returns outside,
    for every input, whichever of its modules are registered. *)
Theorem session_forward_pass_is_transparent model x w :
  uninstrumented w ->
  (forall name, In name (dict_keys (layers (self w))) -> is_buffer name w = true) ->
  output (model_call native model x (start_listening true w))
  = output (model_call native model x w)
  /\ output (model_call native model x w) = inr (model_output native (forward w) model x).
Proof.
  intros Hu Hb.
  destruct (model_call_active model x (start_listening true w)) as (w' & Hm & _).
  - reflexivity.
  - intros l n Hn. apply (proj2 (start_listening_wrappers true w l) Hu) in Hn.
    unfold is_buffer, start_listening, Schedule. simpl. rewrite wrap_layers_self.
    now apply Hb.
  - rewrite Hm, (model_call_uninstrumented model x w Hu).
    unfold output. split; [|reflexivity]. f_equal. apply model_output_stacked.
    intros l. apply start_listening_wrappers.
Qed.

End ModelPass.

(** ** Whole passes *)

Section Passes.

Variable native : nat -> Tensor -> Tensor.
Variable process : MutualInfo -> string -> Value -> Outcome ndarray MutualInfo.
Variable compute_mutual_info : Value -> ndarray -> Exception + Q.



(** X6. [update] has no handler around the forward passes: when one of
    them raises, [update] raises the same exception without calling
    [finish_listening], so the session stays active and the wrappers stay
    on the layers. *)
Theorem failing_pass_leaves_session_open model loader w e w2 :
  eval_loader (self w) = Some loader ->
  run_batches native model (batches loader) 0 loader (start_listening true w) = Raise e w2 ->
  update native process compute_mutual_info true model w = Raise e w2
  /\ is_active (self w2) = true
  /\ forward w2 = forward (start_listening true w)
  /\ layers (self w2) = layers (self w)
  /\ pool_log w2 = pool_log w.
Proof.
  intros Hload Hr. unfold update. rewrite Hload.
  change (is_active (self (start_listening true w))) with true. simpl negb. cbv iota.
  rewrite Hr. split; [reflexivity|].
  pose proof (run_batches_only native model (batches loader) 0 loader
                (start_listening true w)) as Ho.
  rewrite Hr in Ho. simpl in Ho.
  destruct (only_activations_frame _ _ Ho) as (Hf & _ & Hp & Hl & Ha & _).
  repeat split; auto.
  - rewrite Hl. unfold start_listening, Schedule. simpl. now rewrite wrap_layers_self.
  - rewrite Hp. unfold start_listening, Schedule. simpl. apply wrap_layers_pool_log.
Qed.

End Passes.

(** The one-layer monitor is wrapped as registered. *)
Lemma start_listening_wraps_registered_layers_witness :
  is_active (self (start_listening true one_layer)) = true
  /\ layers (self (start_listening true one_layer)) = layers (self one_layer)
  /\ (forall name layer fo,
        In (name, (layer, fo)) (layers (self one_layer)) ->
        exists closure,
          forward (start_listening true one_layer) layer = forward_and_save closure name fo)
  /\ (forall l, ~ In l (layers_of (layers (self one_layer))) ->
                forward (start_listening true one_layer) l = forward one_layer l).
Proof.
  apply (start_listening_wraps_registered_layers one_layer).
  - exact one_layer_consistent.
  - repeat constructor. intros [].
Defined.

(** A second start on the one-layer monitor. *)
Lemma start_listening_twice_wraps_once_witness :
  start_listening true (start_listening true one_layer) = start_listening true one_layer.
Proof.
  apply (start_listening_twice_wraps_once one_layer). exact one_layer_consistent.
Defined.

Lemma one_layer_uninstrumented : uninstrumented one_layer.
Proof. intros l. exists l. reflexivity. Qed.



(** A pass of the one-layer model inside and outside a session. *)
Lemma session_forward_pass_is_transparent_witness :
  output (model_call doubling [0] batch (start_listening true one_layer))
  = output (model_call doubling [0] batch one_layer)
  /\ output (model_call doubling [0] batch one_layer)
     = inr (FloatTensor [[2; 4]; [6; 8]]%Q).
Proof.
  destruct (session_forward_pass_is_transparent doubling [0] batch one_layer) as [H1 H2].
  - exact one_layer_uninstrumented.
  - intros name [<-|[]]. reflexivity.
  - split; [exact H1|]. rewrite H2. reflexivity.
Defined.


(** A layer registered as "input" meets the stored array: the pass
    raises a [TypeError] and the session is left open. *)
Lemma failing_pass_leaves_session_open_witness :
  exists w2,
    update doubling empty_process zero_information true [0] clash = Raise TypeError w2
    /\ is_active (self w2) = true
    /\ forward w2 = forward (start_listening true clash)
    /\ layers (self w2) = layers (self clash)
    /\ pool_log w2 = pool_log clash.
Proof.
  eexists.
  apply (failing_pass_leaves_session_open doubling empty_process zero_information
           [0] one_batch clash TypeError).
  - reflexivity.
  - reflexivity.
Defined.

(** ** The asynchronous computation *)

Lemma pop_all_skip names k v rest :
  ~ In k names ->
  pop_all names ((k, v) :: rest)
  = (fst (pop_all names rest), (k, v) :: snd (pop_all names rest)).
Proof.
  revert rest. induction names as [|h names IH]; intros rest Hk; simpl; auto.
  assert (Hh : String.eqb h k = false).
  { apply String.eqb_neq. intros ->. apply Hk. now left. }
  rewrite Hh.
  destruct (dict_get h rest) as [u|].
  - rewrite IH by (intros H; apply Hk; now right).
    destruct (pop_all names (dict_del h rest)). reflexivity.
  - apply IH. intros H. apply Hk. now right.
Qed.

Lemma pop_all_hidden acts :
  pop_all (filter hidden (dict_keys acts)) acts = (hidden_buffers acts, reference_entries acts).
Proof.
  induction acts as [|[k v] acts IH]; simpl; auto.
  unfold hidden_buffers, reference_entries in *. simpl.
  destruct (hidden k) eqn:Hk; simpl.
  - rewrite String.eqb_refl. fold (dict_keys acts). now rewrite IH.
  - fold (dict_keys acts). rewrite pop_all_skip, IH; [reflexivity|].
    intros Hin. apply filter_In in Hin. destruct Hin as [_ Hh]. congruence.
Qed.

Lemma hidden_buffers_set k v acts :
  hidden k = false -> hidden_buffers (dict_set k v acts) = hidden_buffers acts.
Proof.
  intros Hk. unfold hidden_buffers.
  induction acts as [|[k' u] acts IH]; simpl.
  - now rewrite Hk.
  - destruct (String.eqb k k') eqn:E; simpl.
    + apply String.eqb_eq in E. subst k'. now rewrite Hk.
    + now rewrite IH.
Qed.

Lemma hidden_buffers_after_input v acts :
  hidden_buffers (snd (defaultdict_get v "input" acts)) = hidden_buffers acts.
Proof.
  unfold defaultdict_get. destruct (dict_get "input" acts); [reflexivity|]. simpl.
  now apply hidden_buffers_set.
Qed.

Lemma dict_get_reference_entries k (d : dict Value) :
  hidden k = false -> dict_get k (reference_entries d) = dict_get k d.
Proof.
  intros Hk. unfold reference_entries.
  induction d as [|[k' u] d IH]; simpl; [reflexivity|].
  destruct (String.eqb k k') eqn:E.
  - apply String.eqb_eq in E. subst k'. rewrite Hk. simpl. now rewrite String.eqb_refl.
  - destruct (negb (hidden k')); simpl; rewrite ?E; exact IH.
Qed.

Lemma defaultdict_get_present {V} (v : V) k d :
  dict_get k (snd (defaultdict_get v k d)) = Some (fst (defaultdict_get v k d)).
Proof.
  unfold defaultdict_get. destruct (dict_get k d) eqn:G; simpl; [exact G|].
  apply dict_get_set_eq.
Qed.

Lemma hidden_reference_entries acts :
  filter hidden (dict_keys (reference_entries acts)) = [].
Proof.
  unfold reference_entries, dict_keys.
  induction acts as [|[k v] acts IH]; simpl; auto.
  destruct (hidden k) eqn:Hk; simpl; auto. now rewrite Hk.
Qed.

Section AsyncFacts.

Variable process : MutualInfo -> string -> Value -> Outcome ndarray MutualInfo.
Variable compute_mutual_info : Value -> ndarray -> Exception + Q.

Lemma merge_results_keeps snapshot args w :
  let w' := state_of (merge_results process compute_mutual_info snapshot args w) in
  activations (self w') = activations (self w)
  /\ pool_log w' = pool_log w
  /\ closures w' = closures w.
Proof.
  revert w. induction args as [|job args IH]; intros w; simpl; auto.
  destruct (_compute_async process compute_mutual_info snapshot job)
    as [e|[[[[hname q] ix] iy] nb]]; simpl; auto.
  match goal with |- context [merge_results _ _ _ _ ?w1] => specialize (IH w1) end.
  simpl in IH. exact IH.
Qed.

(** X7. [save_information_async] hands the process pool exactly the
    buffers of the hidden layers, in dictionary order, and drops them
    from [self.activations] before any result is known: whether the
    workers return or raise, no hidden layer has a buffer afterwards,
    while the entries of the references stay (the input reference is
    created empty if it was missing). *)
Theorem save_information_async_discards_buffers w :
  let s := state_of (save_information_async process compute_mutual_info w) in
  let acts := snd (defaultdict_get (Batches []) "input" (activations (self w))) in
  pool_log s = pool_log w ++ [hidden_buffers (activations (self w))]
  /\ activations (self s) = reference_entries acts
  /\ hidden_layer_names (self s) = []
  /\ dict_mem "input" (activations (self s)) = true
  /\ dict_get "target" (activations (self s)) = dict_get "target" (activations (self w)).
Proof.
  intros s acts. subst s. unfold save_information_async.
  destruct (defaultdict_get (Batches []) "input" (activations (self w))) as [input acts0] eqn:D.
  simpl in acts. subst acts.
  unfold hidden_layer_names. simpl activations.
  change (fun name : string => negb (String.eqb name "input" || String.eqb name "target"))
    with hidden.
  rewrite pop_all_hidden.
  match goal with |- context [merge_results _ _ ?m ?a ?w0] =>
    destruct (merge_results_keeps m a w0) as (Ha & Hp & _)
  end.
  simpl in Ha, Hp. rewrite Ha, Hp.
  assert (Hacts : acts0 = snd (defaultdict_get (Batches []) "input" (activations (self w))))
    by now rewrite D.
  split; [|split; [reflexivity|split; [apply hidden_reference_entries|split]]].
  - f_equal. f_equal. rewrite Hacts. apply hidden_buffers_after_input.
  - unfold dict_mem. rewrite dict_get_reference_entries by reflexivity.
    now rewrite Hacts, defaultdict_get_present.
  - rewrite dict_get_reference_entries by reflexivity.
    rewrite Hacts. unfold defaultdict_get.
    destruct (dict_get "input" (activations (self w))); simpl; [reflexivity|].
    now apply dict_get_set_ne.
Qed.

End AsyncFacts.



Section AsyncResults.

Variable process : MutualInfo -> string -> Value -> Outcome ndarray MutualInfo.
Variable compute_mutual_info : Value -> ndarray -> Exception + Q.

Hypothesis process_returns :
  forall m name v, exists q m', process m name v = Return q m'.
Hypothesis compute_mutual_info_returns :
  forall x y, exists i, compute_mutual_info x y = inr i.





End AsyncResults.


(** ** Reporting, once more *)

Section ReportingFacts.

Variable np_unique_counts : Value -> list Z.
Variable np_vstack_transpose : list Value -> option (list (list Q)).

(** The dispersion plot can only add bin counts. *)
Lemma plot_quantized_dispersion_only_n_bins due viz w :
  exists nb,
    fst (state_of (plot_quantized_dispersion np_unique_counts np_vstack_transpose due viz w))
    = set_self (set_n_bins nb (self w)) w.
Proof.
  assert (Hid : w = set_self (set_n_bins (n_bins (self w)) (self w)) w).
  { destruct w as [m f c p]. destruct m. reflexivity. }
  unfold plot_quantized_dispersion, plot_quantized_dispersion_body.
  destruct due; simpl; [|eauto].
  destruct (existsb _ _); simpl; [eauto|].
  destruct (legend_loop _ _) as [legend nb1].
  destruct (_ =? 1).
  - destruct (defaultdict_get 0%N "input" nb1) as [n nb2].
    destruct (fill_counts _ _ _); simpl; eauto.
  - destruct (np_vstack_transpose _); simpl; eauto.
Qed.

(** X9. [plot], returning or raising, changes nothing of the monitor but
    the information record and the bin counts: the [forward] attributes,
    the registrations, the buffers, the quantized cache, the session flag
    and the loader are as before. *)
Theorem plot_touches_only_information_and_bin_counts due viz w :
  let s := fst (state_of (plot np_unique_counts np_vstack_transpose due viz w)) in
  s = set_self (set_information (information (self s))
                  (set_n_bins (n_bins (self s)) (self w))) w.
Proof.
  intros s. subst s.
  assert (Hid : w = set_self (set_information (information (self w))
                               (set_n_bins (n_bins (self w)) (self w))) w).
  { destruct w as [m f c p]. destruct m. reflexivity. }
  unfold plot. destruct (is_active (self w)); [exact Hid|].
  destruct (List.length (information (self w)) =? 0); [exact Hid|].
  destruct (plot_quantized_dispersion_only_n_bins due viz w) as [nb Hnb].
  destruct (plot_quantized_dispersion np_unique_counts np_vstack_transpose due viz w)
    as [[] [w1 viz1]|e [w1 viz1]]; simpl in Hnb; subst w1.
  - destruct (drain _ _) as [[[ys xs] legend] info']. reflexivity.
  - reflexivity.
Qed.

(** X10. Once [plot] has returned, the record is drained: plotting again
    returns at once, with no call to the plotting collaborator and no
    change to the monitor, whatever the gate says. *)
Theorem plot_again_does_nothing due due' viz w w' viz' :
  plot np_unique_counts np_vstack_transpose due viz w = Return tt (w', viz') ->
  plot np_unique_counts np_vstack_transpose due' viz' w' = Return tt (w', viz').
Proof.
  intros H.
  assert (Hact : is_active (self w') = false /\ information (self w') = []).
  { unfold plot in H. destruct (is_active (self w)) eqn:Ha; [discriminate|].
    destruct (List.length (information (self w)) =? 0) eqn:L.
    - injection H as <- _. apply Nat.eqb_eq, length_zero_iff_nil in L. auto.
    - pose proof (plot_quantized_dispersion_frame np_unique_counts np_vstack_transpose
                    due viz w) as F.
      destruct (plot_quantized_dispersion np_unique_counts np_vstack_transpose due viz w)
        as [[] [w1 viz1]|e s1]; [|discriminate].
      destruct F as (Fi & Fa & _). rewrite drain_all in H.
      injection H as <- _. simpl. split; [congruence|reflexivity]. }
  destruct Hact as [Ha Hi]. unfold plot. now rewrite Ha, Hi.
Qed.

End ReportingFacts.

(** Plotting the two pending results twice. *)
Lemma plot_again_does_nothing_witness :
  exists w' viz',
    plot no_counts no_stack false blank measured = Return tt (w', viz')
    /\ plot no_counts no_stack true viz' w' = Return tt (w', viz').
Proof.
  eexists. eexists. split; [reflexivity|].
  apply (plot_again_does_nothing no_counts no_stack false true blank measured).
  reflexivity.
Defined.

(** ** The loops over the loader *)

Lemma take_batches_from bs taken loader size :
  exists n,
    n <= List.length bs
    /\ take_batches bs taken loader size
       = (map fst (firstn n bs), map snd (firstn n bs))
    /\ (bs <> [] -> 1 <= n)
    /\ (n < List.length bs ->
        ge_size (Z.of_nat ((taken + n) * batch_size loader)) size = true)
    /\ (forall m, 1 <= m < n ->
                  ge_size (Z.of_nat ((taken + m) * batch_size loader)) size = false).
Proof.
  revert taken. induction bs as [|[images labels] bs IH]; intros taken.
  - exists 0. simpl. split; [lia|]. split; [reflexivity|]. split; [congruence|].
    split; intros; lia.
  - cbn [take_batches].
    destruct (ge_size (Z.of_nat (S taken * batch_size loader)) size) eqn:G.
    + exists 1. split; [simpl; lia|]. split; [reflexivity|]. split; [lia|]. split.
      * intros _. now replace (taken + 1) with (S taken) by lia.
      * intros m Hm. lia.
    + destruct (IH (S taken)) as (n & Hn & Htake & Hne & Hstop & Hgo).
      exists (S n). rewrite Htake.
      split; [simpl; lia|]. split; [reflexivity|]. split; [lia|]. split.
      * intros H. replace (taken + S n) with (S taken + n) by lia.
        apply Hstop. simpl in H. lia.
      * intros m Hm. destruct (Nat.eq_dec m 1) as [->|Hm1].
        -- now replace (taken + 1) with (S taken) by lia.
        -- replace (taken + m) with (S taken + (m - 1)) by lia. apply Hgo. lia.
Qed.

(** X11. The loop of [prepare] keeps the shortest prefix of the loader's
    batches whose nominal size (number of batches times the batch size)
    reaches [estimate_size], inputs and labels side by side, and at least
    one batch of a non-empty loader; when no prefix reaches the cap, and
    so always under the default [np.inf], it keeps every batch. *)
Theorem prepare_keeps_shortest_prefix loader size :
  let bs := batches loader in
  exists n,
    n <= List.length bs
    /\ take_batches bs 0 loader size = (map fst (firstn n bs), map snd (firstn n bs))
    /\ (bs <> [] -> 1 <= n)
    /\ (n < List.length bs -> ge_size (Z.of_nat (n * batch_size loader)) size = true)
    /\ (forall m, 1 <= m < n -> ge_size (Z.of_nat (m * batch_size loader)) size = false)
    /\ (size = Inf -> n = List.length bs).
Proof.
  intros bs.
  destruct (take_batches_from bs 0 loader size) as (n & Hn & Htake & Hne & Hstop & Hgo).
  exists n. repeat split; auto.
  intros ->. destruct (Nat.lt_ge_cases n (List.length bs)) as [Hlt|Hge]; [|lia].
  apply Hstop in Hlt. discriminate.
Qed.

(** ** The bin-count search, once more *)

Lemma bin_search_window c cmin cmax t n k r :
  bin_search c cmin cmax t n k r ->
  k < t ->
  r = 2%N \/ (cmin <= c r /\ c r <= cmax)%Q.
Proof.
  induction 1; intros Hk; try lia; auto.
  - apply IHbin_search. lia.
  - apply IHbin_search. lia.
  - right. split; now apply Qnot_lt_le.
Qed.

Lemma bin_search_upper c cmin cmax t n k r :
  bin_search c cmin cmax t n k r ->
  (r <= N.max n 2 * 2 ^ N.of_nat k)%N.
Proof.
  induction 1.
  - simpl. lia.
  - rewrite Nat2N.inj_succ, N.pow_succ_r'. nia.
  - simpl. lia.
  - rewrite Nat2N.inj_succ, N.pow_succ_r'.
    assert (n / 2 <= n)%N by (apply N.Div0.div_le_upper_bound; lia). nia.
  - simpl. lia.
Qed.

Lemma bin_search_trials c cmin cmax t n k r :
  bin_search c cmin cmax t n k r -> k <= t.
Proof. induction 1; lia. Qed.

(** X12. The search is a best effort: the bin count [adjust_bins] returns
    never exceeds 20 * 2^10 = 20480, and when it returns before the ten
    trials are used up, either the floor of 2 bins was reached or the
    compression measured at the returned count lies within the configured
    range.  (After ten trials the last count is returned as it is.) *)
Theorem adjust_bins_best_effort fit_predict self cls layer_name activations trials n_bins :
  activations <> [] ->
  max_trials_adjust self = 10 ->
  accepts fit_predict cls layer_name activations ->
  adjust_bins_trials fit_predict self cls layer_name activations = inr (trials, n_bins) ->
  (n_bins <= 20480)%N
  /\ (trials < 10 ->
      n_bins = 2%N
      \/ (fst (compression_range self)
          <= compression fit_predict cls layer_name activations n_bins
          /\ compression fit_predict cls layer_name activations n_bins
             <= snd (compression_range self))%Q).
Proof.
  intros Hne Hmax Hacc Hret.
  destruct (adjust_bins_loop_search fit_predict self cls layer_name activations 10
              Hne Hacc 20%N) as (k & r & Hloop & Hk & Hr & Hs); [lia|simpl; lia|].
  unfold adjust_bins_trials, n_bins_default in Hret. rewrite Hmax, Hloop in Hret.
  injection Hret as <- <-. split.
  - pose proof (bin_search_upper _ _ _ _ _ _ _ Hs) as Hu.
    assert (2 ^ N.of_nat k <= 2 ^ 10)%N by (apply N.pow_le_mono_r; lia).
    change (N.max 20 2) with 20%N in Hu. change (2 ^ 10)%N with 1024%N in *. nia.
  - intros Hlt. exact (bin_search_window _ _ _ _ _ _ _ Hs Hlt).
Qed.

(** The search on the nine [outliers] accepts the default at once. *)
Lemma adjust_bins_best_effort_witness :
  adjust_bins_trials sparse_clusters default_monitor MutualInfoBinFixed "fc" outliers
  = inr (1, 20%N)
  /\ (20 <= 20480)%N
  /\ (1 < 10 ->
      20%N = 2%N
      \/ (fst (compression_range default_monitor)
          <= compression sparse_clusters MutualInfoBinFixed "fc" outliers 20
          /\ compression sparse_clusters MutualInfoBinFixed "fc" outliers 20
             <= snd (compression_range default_monitor))%Q).
Proof.
  split; [reflexivity|].
  apply (adjust_bins_best_effort sparse_clusters default_monitor MutualInfoBinFixed
           "fc" outliers 1 20%N).
  - discriminate.
  - reflexivity.
  - apply histogram_accepts. discriminate.
  - reflexivity.
Defined.

(** Three batches of two samples. *)
Lemma prepare_keeps_shortest_prefix_witness :
  let loader := {| batches := [(batch, LongTensor [0; 1]%Z); (batch, LongTensor [1; 0]%Z);
                               (batch, LongTensor [1; 1]%Z)];
                   batch_size := 2 |} in
  take_batches (batches loader) 0 loader (Finite 3)
  = ([batch; batch], [LongTensor [0; 1]%Z; LongTensor [1; 0]%Z])
  /\ exists n,
       n <= 3
       /\ take_batches (batches loader) 0 loader (Finite 3)
          = (map fst (firstn n (batches loader)), map snd (firstn n (batches loader)))
       /\ (batches loader <> [] -> 1 <= n)
       /\ (n < 3 -> ge_size (Z.of_nat (n * 2)) (Finite 3) = true)
       /\ (forall m, 1 <= m < n -> ge_size (Z.of_nat (m * 2)) (Finite 3) = false)
       /\ (Finite 3 = Inf -> n = 3).
Proof.
  intros loader. split; [reflexivity|].
  apply (prepare_keeps_shortest_prefix loader (Finite 3)).
Defined.

(** ** The levels of the digitizers *)

Lemma Qle_bool_false x y : Qle_bool x y = false -> (y <= x)%Q.
Proof.
  intros H. apply Qlt_le_weak, Qnot_le_lt. rewrite <- Qle_bool_iff. congruence.
Qed.


















(** ** A whole pass, end to end *)





Section Keys.

Variable native : nat -> Tensor -> Tensor.










End Keys.

Section WholePass.

Variable native : nat -> Tensor -> Tensor.
Variable process : MutualInfo -> string -> Value -> Outcome ndarray MutualInfo.
Variable compute_mutual_info : Value -> ndarray -> Exception + Q.

Hypothesis process_returns :
  forall m name v, exists q m', process m name v = Return q m'.
Hypothesis compute_mutual_info_returns :
  forall x y, exists i, compute_mutual_info x y = inr i.


End WholePass.


(** ** Decorated evaluation *)

Section Decorated.

Variable native : nat -> Tensor -> Tensor.
Variable process : MutualInfo -> string -> Value -> Outcome ndarray MutualInfo.
Variable compute_mutual_info : Value -> ndarray -> Exception + Q.

Hypothesis process_returns :
  forall m name v, exists q m', process m name v = Return q m'.
Hypothesis compute_mutual_info_returns :
  forall x y, exists i, compute_mutual_info x y = inr i.


End Decorated.


(** ** Bin counts read through the [defaultdict] *)

Lemma defaultdict_get_keeps {V} (d : dict V) k k' (dflt v : V) :
  dict_get k d = Some v -> dict_get k (snd (defaultdict_get dflt k' d)) = Some v.
Proof.
  intros H. unfold defaultdict_get.
  destruct (dict_get k' d) eqn:G; simpl; [exact H|].
  rewrite dict_get_set_ne; [exact H|]. intros ->. congruence.
Qed.

Lemma legend_loop_keeps names nb k v :
  dict_get k nb = Some v -> dict_get k (snd (legend_loop names nb)) = Some v.
Proof.
  revert nb. induction names as [|name names IH]; intros nb H; simpl; [exact H|].
  pose proof (defaultdict_get_keeps nb k name 0%N v H) as H1.
  destruct (defaultdict_get 0%N name nb) as [n nb1]. simpl in H1.
  specialize (IH nb1 H1).
  destruct (legend_loop names nb1) as [legend nb2]. exact IH.
Qed.

Lemma legend_loop_inserts names nb k :
  In k names -> dict_get k nb = None ->
  dict_get k (snd (legend_loop names nb)) = Some 0%N.
Proof.
  revert nb. induction names as [|name names IH]; intros nb Hin H; [destruct Hin|].
  simpl.
  destruct (string_dec name k) as [->|Hne].
  - pose proof (defaultdict_get_present 0%N k nb) as H1.
    unfold defaultdict_get in H1 at 2. rewrite H in H1. simpl in H1.
    destruct (defaultdict_get 0%N k nb) as [n nb1]. simpl in H1.
    pose proof (legend_loop_keeps names nb1 k 0%N H1) as H2.
    destruct (legend_loop names nb1) as [legend nb2]. exact H2.
  - destruct Hin as [Hk|Hin]; [congruence|].
    assert (H1 : dict_get k (snd (defaultdict_get 0%N name nb)) = None).
    { unfold defaultdict_get. destruct (dict_get name nb); simpl; [exact H|].
      rewrite dict_get_set_ne; auto. }
    destruct (defaultdict_get 0%N name nb) as [n nb1]. simpl in H1.
    specialize (IH nb1 Hin H1).
    destruct (legend_loop names nb1) as [legend nb2]. exact IH.
Qed.

Lemma zero_bin_count (nb : dict N) k :
  dict_get k nb = Some 0%N -> existsb (N.eqb 0) (dict_values nb) = true.
Proof.
  induction nb as [|[k' n] nb IH]; simpl; [discriminate|].
  destruct (String.eqb k k'); [intros [= ->]; reflexivity|].
  intros H. rewrite (IH H). apply orb_true_r.
Qed.

Section DispersionFacts.

Variable np_unique_counts : Value -> list Z.
Variable np_vstack_transpose : list Value -> option (list (list Q)).

(** X17. The legend of the dispersion plot reads [self.n_bins[name]] on a
    [defaultdict]: when the cache holds a name without a bin count and no
    count is zero yet, a due dispersion plot, whether it returns or
    raises, leaves a zero count under that name, and from then on every
    dispersion plot returns at once, drawing nothing and changing
    nothing. *)
Theorem dispersion_plot_disables_itself viz w name :
  existsb (N.eqb 0) (dict_values (n_bins (self w))) = false ->
  In name (dict_keys (quantized (self w))) ->
  dict_get name (n_bins (self w)) = None ->
  let w1 := fst (state_of (plot_quantized_dispersion np_unique_counts np_vstack_transpose
                             true viz w)) in
  dict_get name (n_bins (self w1)) = Some 0%N
  /\ forall due viz2,
       plot_quantized_dispersion np_unique_counts np_vstack_transpose due viz2 w1
       = Return tt (w1, viz2).
Proof.
  intros Hz Hin Hnone w1.
  assert (H0 : dict_get name (n_bins (self w1)) = Some 0%N).
  { subst w1. unfold plot_quantized_dispersion, plot_quantized_dispersion_body.
    rewrite Hz.
    pose proof (legend_loop_inserts _ _ name Hin Hnone) as Hl.
    destruct (legend_loop (dict_keys (quantized (self w))) (n_bins (self w)))
      as [legend nb1]. simpl in Hl.
    destruct (_ =? 1).
    - pose proof (defaultdict_get_keeps nb1 name "input" 0%N 0%N Hl) as Hk.
      destruct (defaultdict_get 0%N "input" nb1) as [n nb2]. simpl in Hk.
      destruct (fill_counts _ _ _); simpl; exact Hk.
    - destruct (np_vstack_transpose _); simpl; exact Hl. }
  split; [exact H0|].
  intros due viz2. unfold plot_quantized_dispersion, plot_quantized_dispersion_body.
  rewrite (zero_bin_count _ _ H0). now destruct due.
Qed.

End DispersionFacts.

(** The cached input reference has no bin count: the first dispersion
    plot records a zero for it. *)
Lemma dispersion_plot_disables_itself_witness :
  let w1 := fst (state_of (plot_quantized_dispersion no_counts no_stack true blank cached)) in
  dict_get "input" (n_bins (self w1)) = Some 0%N
  /\ forall due viz2,
       plot_quantized_dispersion no_counts no_stack due viz2 w1 = Return tt (w1, viz2).
Proof.
  apply (dispersion_plot_disables_itself no_counts no_stack blank cached "input").
  - reflexivity.
  - simpl. now left.
  - reflexivity.
Defined.

(** ** The digitizers keep the order of the activations *)

Lemma nth_map_columns {B} (f : nat -> Q -> B) j0 row j d :
  j < List.length row -> nth j (map_columns f j0 row) d = f (j0 + j) (nth j row 0%Q).
Proof.
  revert j0 j. induction row as [|x row IH]; intros j0 j Hj; simpl in *; [lia|].
  destruct j as [|j].
  - now rewrite Nat.add_0_r.
  - rewrite IH by lia. f_equal. lia.
Qed.


Lemma clamp_mono lo hi x y : (x <= y)%Q -> (clamp lo hi x <= clamp lo hi y)%Q.
Proof.
  intros Hxy. unfold clamp.
  set (a := if Qle_bool x lo then lo else x).
  set (b := if Qle_bool y lo then lo else y).
  assert (Hab : (a <= b)%Q).
  { subst a b. destruct (Qle_bool x lo) eqn:Ex; destruct (Qle_bool y lo) eqn:Ey.
    - apply Qle_refl.
    - now apply Qle_bool_false.
    - apply Qle_bool_iff in Ey. eapply Qle_trans; eauto.
    - exact Hxy. }
  clearbody a b.
  destruct (Qle_bool hi a) eqn:Ea; destruct (Qle_bool hi b) eqn:Eb.
  - apply Qle_refl.
  - apply Qle_bool_iff in Ea. eapply Qle_trans; eauto.
  - now apply Qle_bool_false.
  - exact Hab.
Qed.

Lemma Qtrunc_mono x y : (0 <= x)%Q -> (x <= y)%Q -> (Qtrunc x <= Qtrunc y)%Z.
Proof.
  intros H0 Hxy.
  assert (Hy : (0 <= y)%Q) by (eapply Qle_trans; eauto).
  assert (Hfloor : forall q, (0 <= q)%Q -> Qtrunc q = Qfloor q).
  { intros [p d] Hq. unfold Qle in Hq. simpl in Hq. unfold Qtrunc, Qfloor. simpl.
    apply Z.quot_div_nonneg; lia. }
  rewrite (Hfloor x H0), (Hfloor y Hy). now apply Qfloor_resp_le.
Qed.

Lemma digitize_fixed_entry_mono n_bins m sg x y :
  (0 < sg)%Q -> (x <= y)%Q ->
  (digitize_fixed_entry n_bins m sg x <= digitize_fixed_entry n_bins m sg y)%Z.
Proof.
  intros Hsg Hxy. unfold digitize_fixed_entry.
  set (n := inject_Z (Z.of_N n_bins)).
  assert (Hn0 : (0 <= n)%Q) by (unfold n, Qle, inject_Z; simpl; lia).
  apply Qtrunc_mono; [apply clamp_range; exact Hn0|].
  apply clamp_mono.
  set (lo := (m - 2 * sg)%Q). set (hi := (m + 2 * sg)%Q).
  assert (Hw : (0 < hi - lo)%Q).
  { unfold hi, lo. setoid_replace (m + 2 * sg - (m - 2 * sg))%Q with (4 * sg)%Q by ring.
    setoid_replace 0%Q with (4 * 0)%Q by ring.
    apply Qmult_lt_l; [reflexivity|exact Hsg]. }
  unfold Qdiv. apply Qmult_le_compat_r; [|apply Qinv_le_0_compat, Qlt_le_weak, Hw].
  rewrite (Qmult_comm n (x - lo)), (Qmult_comm n (y - lo)).
  apply Qmult_le_compat_r; [|exact Hn0].
  unfold Qminus. apply Qplus_le_compat; [exact Hxy|apply Qle_refl].
Qed.

Lemma nth_digitized_row {B} (f : nat -> Q -> B) (activations : Activations) i j d :
  i < List.length activations ->
  j < List.length (nth i activations []) ->
  nth j (nth i (map (map_columns f 0) activations) []) d
  = f j (nth j (nth i activations []) 0%Q).
Proof.
  intros Hi Hj.
  change (@nil B) with (map_columns f 0 []).
  rewrite map_nth. now rewrite nth_map_columns.
Qed.


(** X19. [MutualInfoBinFixed.digitize] keeps the order of the activations
    of a feature whose standard deviation is positive: of two samples,
    the one with the larger activation in such a column never gets the
    lower level in that column. *)
Theorem fixed_digitize_preserves_order layer_name activations n_bins :
  exists rows,
    MutualInfoBinFixed_digitize layer_name activations n_bins = inr (Arr2 rows)
    /\ forall i i' j,
         i < List.length activations ->
         i' < List.length activations ->
         j < List.length (nth i activations []) ->
         j < List.length (nth i' activations []) ->
         (0 < std (column j activations))%Q ->
         (nth j (nth i activations []) 0 <= nth j (nth i' activations []) 0)%Q ->
         (nth j (nth i rows []) 0 <= nth j (nth i' rows []) 0)%Z.
Proof.
  eexists. split; [reflexivity|].
  intros i i' j Hi Hi' Hj Hj' Hsig Hle.
  rewrite !nth_digitized_row by assumption.
  now apply digitize_fixed_entry_mono.
Qed.


Lemma fixed_digitize_preserves_order_witness :
  exists rows,
    MutualInfoBinFixed_digitize "fc" outliers 2 = inr (Arr2 rows)
    /\ (nth 0 (nth 1 rows []) 0 <= nth 0 (nth 0 rows []) 0)%Z.
Proof.
  destruct (fixed_digitize_preserves_order "fc" outliers 2) as (rows & Hd & Hall).
  exists rows. split; [exact Hd|].
  apply (Hall 1 0 0); simpl; try lia.
  - reflexivity.
  - unfold Qle. simpl. lia.
Defined.
